(** * mcp-mistral-codestral: the upstream router and response-normalisation layer

    A shallow embedding of [src/mistral.ts] (model registry, endpoint router,
    upstream client, error translation, prompt builder, request pacer,
    singleton accessor) and of the server entry point ([formatResponse], the
    tool input schemas, the tool execution handler and the start of the
    process), together with the properties the specification states about
    them and further properties read off the code.

    Conventions of the embedding.
    - A JavaScript string is the list of its UTF-16 code units ([jsstring]).
    - A JavaScript number that the code only stores, compares with a literal
      or passes on is a rational ([Q]); timestamps and HTTP statuses are
      integers ([Z]).
    - [undefined] is [None]; a thrown exception is the [Throw] branch of
      [Result]. *)

From Stdlib Require Import List ZArith NArith QArith Lia Bool String Ascii.
From Stdlib Require Import Numbers.DecimalString.
Import ListNotations.

Set Implicit Arguments.
Set Warnings "-register-all".

Close Scope Q_scope.
Local Open Scope Z_scope.
Local Open Scope list_scope.
Local Open Scope bool_scope.

(* ================================================================== *)
(** * JavaScript strings *)
(* ================================================================== *)

Module JsString.

Definition code_unit := N.
Definition jsstring := list code_unit.

(** A source literal, written as a Rocq string of ASCII characters. *)
Definition js (s : string) : jsstring :=
  map N_of_ascii (list_ascii_of_string s).

(** The escape [\n] of the source literals. *)
Definition LF : jsstring := [10%N].

(** Three backticks, the markdown fence. *)
Definition FENCE : jsstring := [96%N; 96%N; 96%N].

(** [a === b] on strings. *)
Fixpoint jseqb (a b : jsstring) : bool :=
  match a, b with
  | [], [] => true
  | x :: a', y :: b' => N.eqb x y && jseqb a' b'
  | _, _ => false
  end.

(** Truthiness of [string | undefined]: only a non-empty string is truthy. *)
Definition truthy (s : option jsstring) : bool :=
  match s with
  | Some (_ :: _) => true
  | _ => false
  end.

(** [s || ''] for [s : string | undefined]. *)
Definition or_empty (s : option jsstring) : jsstring :=
  match s with
  | Some t => if truthy s then t else []
  | None => []
  end.

(** [`${n}`] for an integral number. *)
Definition string_of_Z (n : Z) : jsstring :=
  js (NilZero.string_of_int (Z.to_int n)).

(** [parts.join(sep)]. *)
Fixpoint join (sep : jsstring) (parts : list jsstring) : jsstring :=
  match parts with
  | [] => []
  | [p] => p
  | p :: rest => p ++ sep ++ join sep rest
  end.

End JsString.
Import JsString.

(* ================================================================== *)
(** * Model registry and endpoint router *)
(* ================================================================== *)

Definition CODESTRAL_API_BASE : jsstring := js "https://codestral.mistral.ai/v1".
Definition MISTRAL_API_BASE : jsstring := js "https://api.mistral.com/v1".

(** The keys of the [MISTRAL_MODELS] table. *)
Inductive ModelKey : Type :=
| CODESTRAL
| CODESTRAL_MAMBA
| MISTRAL_LARGE
| MISTRAL_SMALL
| MINISTRAL_8B
| MINISTRAL_3B.

(** [MISTRAL_MODELS[k]]; the values are the inhabitants of the TypeScript
    type [MistralModel]. *)
Definition MISTRAL_MODELS (k : ModelKey) : jsstring :=
  match k with
  | CODESTRAL => js "codestral-latest"
  | CODESTRAL_MAMBA => js "codestral-mamba-latest"
  | MISTRAL_LARGE => js "mistral-large-latest"
  | MISTRAL_SMALL => js "mistral-small-latest"
  | MINISTRAL_8B => js "ministral-8b-latest"
  | MINISTRAL_3B => js "ministral-3b-latest"
  end.

Definition MistralModel := jsstring.

Definition all_model_keys : list ModelKey :=
  [CODESTRAL; CODESTRAL_MAMBA; MISTRAL_LARGE; MISTRAL_SMALL; MINISTRAL_8B; MINISTRAL_3B].

(** The capability class the table's comments declare for each entry:
    "Code-specific models (use Codestral endpoint)" and
    "General models (use standard Mistral endpoint)". *)
Inductive CapabilityClass : Type := CodeSpecialized | GeneralPurpose.

Definition declared_class (k : ModelKey) : CapabilityClass :=
  match k with
  | CODESTRAL | CODESTRAL_MAMBA => CodeSpecialized
  | MISTRAL_LARGE | MISTRAL_SMALL | MINISTRAL_8B | MINISTRAL_3B => GeneralPurpose
  end.

Definition base_of_class (c : CapabilityClass) : jsstring :=
  match c with
  | CodeSpecialized => CODESTRAL_API_BASE
  | GeneralPurpose => MISTRAL_API_BASE
  end.

Definition getApiBase (model : MistralModel) : jsstring :=
  if jseqb model (MISTRAL_MODELS CODESTRAL)
     || jseqb model (MISTRAL_MODELS CODESTRAL_MAMBA)
  then CODESTRAL_API_BASE
  else MISTRAL_API_BASE.

(* ================================================================== *)
(** * Prompt builder *)
(* ================================================================== *)

Record Message : Type := mkMessage { role : jsstring; content : jsstring }.

(** The task kinds ['complete' | 'fix' | 'test' | 'fim']. *)
Inductive Task : Type := task_complete | task_fix | task_test | task_fim.

Definition is_fim (t : Task) : bool :=
  match t with task_fim => true | _ => false end.

Definition systemPrompts (t : Task) : jsstring :=
  match t with
  | task_complete =>
      js "You are an expert programmer. Continue or complete the provided code according to best practices."
  | task_fix =>
      js "You are an expert programmer. Analyze the code for bugs and provide a corrected version with explanations of the fixes."
  | task_test =>
      js "You are an expert programmer. Generate comprehensive unit tests for the provided code using appropriate testing frameworks."
  | task_fim =>
      js "You are an expert programmer. Complete the code between the given start and end sections, ensuring it flows naturally."
  end.

Definition createPrompt (code : jsstring) (language : option jsstring)
    (task : Task) (suffix : option jsstring) : list Message :=
  let langStr :=
    if truthy language then js " " ++ or_empty language else [] in
  let userContent :=
    js "Here is the" ++ langStr ++ js " code:" ++ LF ++ LF
      ++ FENCE ++ or_empty language ++ LF ++ code ++ LF ++ FENCE in
  let userContent :=
    if is_fim task && truthy suffix
    then userContent ++ LF ++ LF ++ js "The code should end with:" ++ LF ++ LF
           ++ FENCE ++ or_empty language ++ LF ++ or_empty suffix ++ LF ++ FENCE
    else userContent in
  [ {| role := js "system"; content := systemPrompts task |};
    {| role := js "user"; content := userContent |} ].

(** The pieces of the user message, named so that statements can refer to them. *)
Definition fenced (language : option jsstring) (body : jsstring) : jsstring :=
  FENCE ++ or_empty language ++ LF ++ body ++ LF ++ FENCE.

Definition user_preamble (language : option jsstring) : jsstring :=
  js "Here is the"
    ++ (if truthy language then js " " ++ or_empty language else [])
    ++ js " code:" ++ LF ++ LF.

Definition suffix_preamble : jsstring :=
  LF ++ LF ++ js "The code should end with:" ++ LF ++ LF.

(** The prompt builder as the specification words it: the second fenced block
    is appended exactly when the task is fim and a suffix is present. *)
Definition createPrompt_spec (code : jsstring) (language : option jsstring)
    (task : Task) (suffix : option jsstring) : list Message :=
  [ {| role := js "system"; content := systemPrompts task |};
    {| role := js "user";
       content :=
         user_preamble language ++ fenced language code
           ++ match task, suffix with
              | task_fim, Some s => suffix_preamble ++ fenced language s
              | _, _ => []
              end |} ].

(* ================================================================== *)
(** * Exceptions, JSON values and the JavaScript runtime *)
(* ================================================================== *)

(** A computation that returns or throws. *)
Inductive Result (E A : Type) : Type :=
| Ok (a : A)
| Throw (e : E).
Arguments Ok {E A} a.
Arguments Throw {E A} e.

(** A parsed JSON body. [undefined] is the [None] of [option JSON]. *)
Inductive JSON : Type :=
| JNull
| JBool (b : bool)
| JNum (q : Q)
| JStr (s : jsstring)
| JArr (items : list JSON)
| JObj (fields : list (jsstring * JSON)).

(** [obj[key]] on the own properties of a plain object. *)
Fixpoint get_field (key : jsstring) (fields : list (jsstring * JSON)) : option JSON :=
  match fields with
  | [] => None
  | (k, v) :: rest => if jseqb key k then Some v else get_field key rest
  end.

(** [v?.key]: [undefined] on [undefined] and [null]; a primitive or an array
    has no own property of the names used here. *)
Definition opt_chain (v : option JSON) (key : jsstring) : option JSON :=
  match v with
  | Some (JObj fields) => get_field key fields
  | _ => None
  end.

(** Truthiness of a value. *)
Definition js_truthy (v : option JSON) : bool :=
  match v with
  | None => false
  | Some JNull => false
  | Some (JBool b) => b
  | Some (JNum q) => negb (Qnum q =? 0)%Z
  | Some (JStr s) => match s with [] => false | _ => true end
  | Some (JArr _) => true
  | Some (JObj _) => true
  end.

(** A path into a body, as zod reports it with an issue. *)
Inductive PathSeg : Type :=
| PKey (k : jsstring)
| PIdx (i : nat).

Definition ZodIssue := list PathSeg.

(** What the code takes from the JavaScript runtime and its libraries without
    this repository defining it: the text of a number, [JSON.stringify] and
    the message zod gives a [ZodError]. *)
Class JsRuntime : Type := {
  Number_toString : Q -> jsstring;
  JSON_stringify : JSON -> jsstring;
  ZodError_message : list ZodIssue -> jsstring
}.

(** [`${v}`] for a value: the ToString conversion. *)
Fixpoint ToString `{JsRuntime} (v : JSON) : jsstring :=
  match v with
  | JNull => js "null"
  | JBool true => js "true"
  | JBool false => js "false"
  | JNum q => Number_toString q
  | JStr s => s
  | JArr items =>
      join (js ",")
        (map (fun e => match e with JNull => [] | _ => ToString e end) items)
  | JObj _ => js "[object Object]"
  end.

Definition ToString_opt `{JsRuntime} (v : option JSON) : jsstring :=
  match v with
  | None => js "undefined"
  | Some w => ToString w
  end.

Record AxiosResponse : Type := mkResponse {
  status : Z;
  data : option JSON
}.

Record AxiosError : Type := mkAxiosError {
  ae_message : jsstring;
  ae_response : option AxiosResponse
}.

(** The values the modelled code throws and catches. *)
Inductive Exn : Type :=
| AxiosError_ (e : AxiosError)
| Error_ (message : jsstring)
| ZodError_ (issues : list ZodIssue).

(** [err.message]. *)
Definition exn_message `{JsRuntime} (e : Exn) : jsstring :=
  match e with
  | AxiosError_ a => ae_message a
  | Error_ m => m
  | ZodError_ issues => ZodError_message issues
  end.

(* ================================================================== *)
(** * Response validator: [CompletionResponseSchema] *)
(* ================================================================== *)

Module Zod.

Inductive ZodResult (A : Type) : Type :=
| ZodOk (a : A)
| ZodFail (issues : list ZodIssue).
Arguments ZodOk {A} a.
Arguments ZodFail {A} issues.

Definition zod_map {A B} (f : A -> B) (r : ZodResult A) : ZodResult B :=
  match r with
  | ZodOk a => ZodOk (f a)
  | ZodFail i => ZodFail i
  end.

(** Every key of an object and every element of an array is parsed; the
    issues of all of them are collected. *)
Definition zod_ap {A B} (rf : ZodResult (A -> B)) (ra : ZodResult A) : ZodResult B :=
  match rf, ra with
  | ZodOk f, ZodOk a => ZodOk (f a)
  | ZodOk _, ZodFail j => ZodFail j
  | ZodFail i, ZodOk _ => ZodFail i
  | ZodFail i, ZodFail j => ZodFail (i ++ j)
  end.

Definition at_path {A} (seg : PathSeg) (r : ZodResult A) : ZodResult A :=
  match r with
  | ZodOk a => ZodOk a
  | ZodFail i => ZodFail (map (cons seg) i)
  end.

Definition Parser (A : Type) : Type := option JSON -> ZodResult A.

Definition z_string : Parser jsstring :=
  fun v => match v with Some (JStr s) => ZodOk s | _ => ZodFail [[]] end.

Definition z_number : Parser Q :=
  fun v => match v with Some (JNum q) => ZodOk q | _ => ZodFail [[]] end.

Definition z_optional {A} (p : Parser A) : Parser (option A) :=
  fun v => match v with None => ZodOk None | Some _ => zod_map Some (p v) end.

Definition z_object {A} (shape : list (jsstring * JSON) -> ZodResult A) : Parser A :=
  fun v => match v with Some (JObj fields) => shape fields | _ => ZodFail [[]] end.

Definition z_key {A} (key : string) (p : Parser A)
    (fields : list (jsstring * JSON)) : ZodResult A :=
  at_path (PKey (js key)) (p (get_field (js key) fields)).

Fixpoint z_elements {A} (p : Parser A) (i : nat) (items : list JSON) : ZodResult (list A) :=
  match items with
  | [] => ZodOk []
  | x :: rest =>
      zod_ap (zod_map cons (at_path (PIdx i) (p (Some x)))) (z_elements p (S i) rest)
  end.

Definition z_array {A} (p : Parser A) : Parser (list A) :=
  fun v => match v with Some (JArr items) => z_elements p 0%nat items | _ => ZodFail [[]] end.

End Zod.
Import Zod.

Record ChoiceMessage : Type := mkChoiceMessage {
  cm_role : jsstring;
  cm_content : jsstring
}.

Record Choice : Type := mkChoice {
  index : Q;
  message : ChoiceMessage;
  finish_reason : option jsstring
}.

Record Usage : Type := mkUsage {
  prompt_tokens : Q;
  completion_tokens : Q;
  total_tokens : Q
}.

Record CompletionResponse : Type := mkCompletionResponse {
  id : jsstring;
  object : jsstring;
  created : Q;
  model : jsstring;
  choices : list Choice;
  usage : Usage
}.

Definition message_schema : Parser ChoiceMessage :=
  z_object (fun f =>
    zod_ap (zod_map mkChoiceMessage (z_key "role" z_string f))
           (z_key "content" z_string f)).

Definition choice_schema : Parser Choice :=
  z_object (fun f =>
    zod_ap (zod_ap (zod_map mkChoice (z_key "index" z_number f))
                   (z_key "message" message_schema f))
           (z_key "finish_reason" (z_optional z_string) f)).

Definition usage_schema : Parser Usage :=
  z_object (fun f =>
    zod_ap (zod_ap (zod_map mkUsage (z_key "prompt_tokens" z_number f))
                   (z_key "completion_tokens" z_number f))
           (z_key "total_tokens" z_number f)).

Definition CompletionResponseSchema : Parser CompletionResponse :=
  z_object (fun f =>
    zod_ap (zod_ap (zod_ap (zod_ap (zod_ap
      (zod_map mkCompletionResponse (z_key "id" z_string f))
      (z_key "object" z_string f))
      (z_key "created" z_number f))
      (z_key "model" z_string f))
      (z_key "choices" (z_array choice_schema) f))
      (z_key "usage" usage_schema f)).

(** [CompletionResponseSchema.parse(data)]: the validated value, or a thrown
    [ZodError] with the collected issues. *)
Definition CompletionResponseSchema_parse (body : option JSON) : Result Exn CompletionResponse :=
  match CompletionResponseSchema body with
  | ZodOk r => Ok r
  | ZodFail issues => Throw (ZodError_ issues)
  end.

(* ================================================================== *)
(** * Code extractor: [formatResponse] *)
(* ================================================================== *)

Module Regex.

(** The class [\w] of a regular expression without the [i] and [u] flags:
    [A-Za-z0-9_]. *)
Definition is_word_char (c : code_unit) : bool :=
  ((48 <=? c) && (c <=? 57)
   || (65 <=? c) && (c <=? 90)
   || (c =? 95)
   || (97 <=? c) && (c <=? 122))%N.

(** [Some rest] when [s] is [p] followed by [rest]. *)
Fixpoint strip_prefix (p s : jsstring) : option jsstring :=
  match p, s with
  | [], _ => Some s
  | x :: p', y :: s' => if N.eqb x y then strip_prefix p' s' else None
  | _ :: _, [] => None
  end.

(** The greedy [[\w]*]. Backing off from the longest run never helps the
    pattern, because the next item, [\n], is not a word character. *)
Fixpoint skip_word (s : jsstring) : jsstring :=
  match s with
  | c :: s' => if is_word_char c then skip_word s' else s
  | [] => []
  end.

(** The lazy group [([\s\S]*?)] followed by the closing fence: the group
    grows one code unit at a time until three backticks follow it. *)
Fixpoint split_at_fence (s : jsstring) : option (jsstring * jsstring) :=
  match strip_prefix FENCE s with
  | Some rest => Some ([], rest)
  | None =>
      match s with
      | [] => None
      | c :: s' =>
          match split_at_fence s' with
          | Some (inner, rest) => Some (c :: inner, rest)
          | None => None
          end
      end
  end.

(** One attempt of the pattern at the head of [s]: the captured group and
    the text after the match. *)
Definition match_at (s : jsstring) : option (jsstring * jsstring) :=
  match strip_prefix FENCE s with
  | None => None
  | Some s1 =>
      match skip_word s1 with
      | c :: s2 => if (c =? 10)%N then split_at_fence s2 else None
      | [] => None
      end
  end.

(** [content.matchAll(codeBlockRegex)], the captured groups of the successive
    matches: the pattern is tried at each position from the left, and after a
    match the search resumes where the match ended. The recursion is on a
    counter that starts above the length of the text. *)
Fixpoint matchAll_from (fuel : nat) (s : jsstring) : list jsstring :=
  match fuel with
  | O => []
  | S fuel' =>
      match match_at s with
      | Some (inner, rest) => inner :: matchAll_from fuel' rest
      | None =>
          match s with
          | [] => []
          | _ :: s' => matchAll_from fuel' s'
          end
      end
  end.

Definition matchAll (s : jsstring) : list jsstring :=
  matchAll_from (S (List.length s)) s.

End Regex.
Import Regex.

(** White space and line terminators, the code units [trim] removes. *)
Definition is_js_space (c : code_unit) : bool :=
  ((9 <=? c) && (c <=? 13)
   || (c =? 32) || (c =? 160) || (c =? 5760)
   || (8192 <=? c) && (c <=? 8202)
   || (c =? 8232) || (c =? 8233) || (c =? 8239) || (c =? 8287)
   || (c =? 12288) || (c =? 65279))%N.

Fixpoint trimStart (s : jsstring) : jsstring :=
  match s with
  | c :: s' => if is_js_space c then trimStart s' else s
  | [] => []
  end.

Definition trimEnd (s : jsstring) : jsstring := rev (trimStart (rev s)).

Definition trim (s : jsstring) : jsstring := trimEnd (trimStart s).

(** The second half of [formatResponse]: the code of the fenced blocks, or
    the text itself when it has none. *)
Definition extractCodeBlocks (content : jsstring) : jsstring :=
  match matchAll content with
  | [] => content
  | matches => join (LF ++ LF) (map trim matches)
  end.

Definition formatResponse (completion : CompletionResponse) : Result Exn jsstring :=
  match choices completion with
  | [] => Throw (Error_ (js "Invalid completion response"))
  | first :: _ => Ok (extractCodeBlocks (cm_content (message first)))
  end.

(** ** The blocks of a text that the pattern of [formatResponse] delimits *)

(** The fence occurs in [s]. *)
Definition has_fence (s : jsstring) : Prop :=
  exists p q, s = p ++ FENCE ++ q.

(** [inner] runs up to the next closing fence of [inner ++ FENCE ++ rest]. *)
Definition ends_at_next_fence (inner rest : jsstring) : Prop :=
  forall p q, inner ++ FENCE ++ rest = p ++ FENCE ++ q ->
    (List.length inner <= List.length p)%nat.

(** The pattern matches at the head of [s]: a fence, a tag of word characters
    (possibly none), a line feed at once after the tag, and a fence somewhere
    after. *)
Definition opens_block (s : jsstring) : Prop :=
  exists tag inner rest,
    s = FENCE ++ tag ++ LF ++ inner ++ FENCE ++ rest
    /\ forallb is_word_char tag = true.

(** [FencedBlocks s bs]: [bs] are the inner contents of the blocks of [s]
    that the pattern delimits, in document order, each block being the
    leftmost one that opens after the end of the previous one. A fence whose
    tag holds another character ([c++], [objective-c]), or whose tag is
    followed by a blank or a carriage return, opens no block here. *)
Inductive FencedBlocks : jsstring -> list jsstring -> Prop :=
| FB_end : FencedBlocks [] []
| FB_prose c s bs :
    ~ opens_block (c :: s) ->
    FencedBlocks s bs ->
    FencedBlocks (c :: s) bs
| FB_block tag inner rest bs :
    forallb is_word_char tag = true ->
    ends_at_next_fence inner rest ->
    FencedBlocks rest bs ->
    FencedBlocks (FENCE ++ tag ++ LF ++ inner ++ FENCE ++ rest) (inner :: bs).

(** ** The code extractor, as the specification words it *)

(** A fenced code block is a region delimited by a fence, with an optional
    language tag on the opening fence, ending at the next bare closing fence.
    The language tag is what the line of the opening fence holds after the
    fence: any characters but a line feed or a backtick. *)
Definition is_tag_char_spec (c : code_unit) : bool :=
  negb (c =? 10)%N && negb (c =? 96)%N.

Fixpoint skip_tag_spec (s : jsstring) : jsstring :=
  match s with
  | c :: s' => if is_tag_char_spec c then skip_tag_spec s' else s
  | [] => []
  end.

(** A fenced code block at the head of [s]: its content and the text after
    its closing fence. *)
Definition block_at_spec (s : jsstring) : option (jsstring * jsstring) :=
  match strip_prefix FENCE s with
  | None => None
  | Some s1 =>
      match skip_tag_spec s1 with
      | c :: s2 => if (c =? 10)%N then split_at_fence s2 else None
      | [] => None
      end
  end.

(** All fenced code blocks, in document order. *)
Fixpoint blocks_spec_from (fuel : nat) (s : jsstring) : list jsstring :=
  match fuel with
  | O => []
  | S fuel' =>
      match block_at_spec s with
      | Some (inner, rest) => inner :: blocks_spec_from fuel' rest
      | None =>
          match s with
          | [] => []
          | _ :: s' => blocks_spec_from fuel' s'
          end
      end
  end.

Definition blocks_spec (s : jsstring) : list jsstring :=
  blocks_spec_from (S (List.length s)) s.

(** If one or more blocks are found, their trimmed inner contents joined by
    a blank line; if none, the original text. *)
Definition extractCodeBlocks_spec (text : jsstring) : jsstring :=
  match blocks_spec text with
  | [] => text
  | blocks => join (LF ++ LF) (map trim blocks)
  end.

(** A reply that is one block of C++, and a reply with a block of C++, a line
    of prose and a block of shell. *)
Definition cpp_block_text : jsstring :=
  FENCE ++ js "c++" ++ LF ++ js "int x;" ++ LF ++ FENCE.

Definition cpp_and_bash_text : jsstring :=
  FENCE ++ js "c++" ++ LF ++ js "int main(){}" ++ LF ++ FENCE ++ LF
    ++ js "Run it:" ++ LF
    ++ FENCE ++ js "bash" ++ LF ++ js "make" ++ LF ++ FENCE.

(* ================================================================== *)
(** * Upstream client *)
(* ================================================================== *)

(** An axios instance: what [axios.create] was given. *)
Record Client : Type := mkClient {
  baseURL : jsstring;
  hdr_Authorization : jsstring;
  hdr_ContentType : jsstring;
  hdr_Accept : jsstring;
  timeout : Z
}.

Definition axios_create (base bearer : jsstring) : Client :=
  {| baseURL := base;
     hdr_Authorization := js "Bearer " ++ bearer;
     hdr_ContentType := js "application/json";
     hdr_Accept := js "application/json";
     timeout := 30000 |}.

(** An instance of the class [MistralAPI]. [oid] is the identity of the
    object: two instances are the same object when they have the same [oid]. *)
Record MistralAPI : Type := mkMistralAPI {
  oid : nat;
  apiKey : jsstring;
  codestralClient : Client;
  mistralClient : Client;
  lastRequestTime : Z;
  minRequestInterval : Z
}.

(** [new MistralAPI(apiKey)], the object being allocated at identity [o]. *)
Definition new_MistralAPI (o : nat) (key : jsstring) : Result Exn MistralAPI :=
  if negb (truthy (Some key)) || (List.length (trim key) =? 0)%nat
  then Throw (Error_ (js "API key cannot be empty"))
  else
    Ok {| oid := o;
          apiKey := trim key;
          codestralClient := axios_create CODESTRAL_API_BASE (trim key);
          mistralClient := axios_create MISTRAL_API_BASE (trim key);
          lastRequestTime := 0;
          minRequestInterval := 100 |}.

Definition getClient (this : MistralAPI) (m : MistralModel) : Client :=
  if jseqb (getApiBase m) CODESTRAL_API_BASE
  then codestralClient this
  else mistralClient this.

(** ** Request bodies *)

Record ChatOptions : Type := mkChatOptions {
  opt_model : option MistralModel;
  opt_temperature : option Q;
  opt_top_p : option Q;
  opt_max_tokens : option Q;
  opt_stop : option (list jsstring)
}.

Record FimOptions : Type := mkFimOptions {
  fopt_suffix : option jsstring;
  fopt_temperature : option Q;
  fopt_top_p : option Q;
  fopt_max_tokens : option Q;
  fopt_stop : option (list jsstring)
}.

Record ChatBody : Type := mkChatBody {
  cb_model : MistralModel;
  cb_messages : list Message;
  cb_temperature : Q;
  cb_top_p : Q;
  cb_max_tokens : Q;
  cb_stop : option (list jsstring)
}.

Record FimBody : Type := mkFimBody {
  fb_model : MistralModel;
  fb_prompt : jsstring;
  fb_suffix : option jsstring;
  fb_temperature : Q;
  fb_top_p : Q;
  fb_max_tokens : Q;
  fb_stop : option (list jsstring)
}.

Inductive RequestBody : Type :=
| ChatReq (b : ChatBody)
| FimReq (b : FimBody).

(** [x ?? d]. *)
Definition nullish {A} (x : option A) (d : A) : A :=
  match x with
  | Some v => v
  | None => d
  end.

(** The object literal [chatCompletion] posts. *)
Definition chat_body (messages : list Message) (options : ChatOptions) : ChatBody :=
  let model :=
    if truthy (opt_model options) then or_empty (opt_model options)
    else MISTRAL_MODELS CODESTRAL in
  {| cb_model := model;
     cb_messages := messages;
     cb_temperature := nullish (opt_temperature options) (7 # 10)%Q;
     cb_top_p := nullish (opt_top_p options) 1%Q;
     cb_max_tokens := nullish (opt_max_tokens options) 1000%Q;
     cb_stop := opt_stop options |}.

(** The [requestBody] of [fimCompletion]. *)
Definition fim_body (prompt : jsstring) (options : FimOptions) : FimBody :=
  {| fb_model := MISTRAL_MODELS CODESTRAL;
     fb_prompt := prompt;
     fb_suffix := fopt_suffix options;
     fb_temperature := nullish (fopt_temperature options) 0%Q;
     fb_top_p := nullish (fopt_top_p options) 1%Q;
     fb_max_tokens := nullish (fopt_max_tokens options) 1000%Q;
     fb_stop := fopt_stop options |}.

(** ** The world: the clock and the calls that went out *)

Record Request : Type := mkRequest {
  req_client : Client;
  req_path : jsstring;
  req_body : RequestBody
}.

(** [now] is [Date.now()], in milliseconds; [dispatched] lists the outbound
    calls with their dispatch timestamps, oldest first. *)
Record World : Type := mkWorld {
  now : Z;
  dispatched : list (Z * Request)
}.

(** How a [post] settles: axios resolves with the response on a 2xx status
    and rejects otherwise. *)
Inductive PostOutcome : Type :=
| Resolved (r : AxiosResponse)
| Rejected (e : Exn).

(** The upstream and the network between: for a request sent from a world,
    the milliseconds until the promise settles, and how it settles. *)
Definition Network : Type := World -> Request -> N * PostOutcome.

Definition M (A : Type) : Type := World -> Result Exn A * World.

Definition ret {A} (a : A) : M A := fun w => (Ok a, w).

Definition throw {A} (e : Exn) : M A := fun w => (Throw e, w).

Definition bind {A B} (m : M A) (k : A -> M B) : M B :=
  fun w =>
    match m w with
    | (Ok a, w') => k a w'
    | (Throw e, w') => (Throw e, w')
    end.

Definition try_catch {A} (body : M A) (handler : Exn -> M A) : M A :=
  fun w =>
    match body w with
    | (Ok a, w') => (Ok a, w')
    | (Throw e, w') => handler e w'
    end.

Definition lift {A} (r : Result Exn A) : M A := fun w => (r, w).

Notation "x <- m ;; k" := (bind m (fun x => k))
  (at level 61, m at next level, right associativity).

(** [await client.post(path, body)]: the call is dispatched at the current
    time and the caller resumes when it settles. *)
Definition post (net : Network) (client : Client) (path : jsstring)
    (body : RequestBody) : M AxiosResponse :=
  fun w =>
    let req := {| req_client := client; req_path := path; req_body := body |} in
    let '(latency, outcome) := net w req in
    let w' := {| now := now w + Z.of_N latency;
                 dispatched := dispatched w ++ [(now w, req)] |} in
    match outcome with
    | Resolved r => (Ok r, w')
    | Rejected e => (Throw e, w')
    end.

(** ** Error translation *)

(** The arms of [switch (status)] in the two [catch] blocks. *)
Inductive TranslatorArm : Type := Arm401 | Arm429 | Arm500 | ArmDefault.

(** [error.response?.status]. *)
Definition response_status (e : AxiosError) : option Z :=
  match ae_response e with
  | Some r => Some (status r)
  | None => None
  end.

(** [error.response?.data]. *)
Definition response_data (e : AxiosError) : option JSON :=
  match ae_response e with
  | Some r => data r
  | None => None
  end.

Definition switch_status (st : option Z) : TranslatorArm :=
  match st with
  | Some 401 => Arm401
  | Some 429 => Arm429
  | Some 500 => Arm500
  | _ => ArmDefault
  end.

(** [`${status}`]. *)
Definition status_text (st : option Z) : jsstring :=
  match st with
  | Some n => string_of_Z n
  | None => js "undefined"
  end.

(** [error.response?.data?.error?.message]. *)
Definition upstream_message (e : AxiosError) : option JSON :=
  opt_chain (opt_chain (response_data e) (js "error")) (js "message").

(** [`${error.response?.data?.error?.message || error.message}`]. *)
Definition failure_message `{JsRuntime} (e : AxiosError) : jsstring :=
  if js_truthy (upstream_message e)
  then ToString_opt (upstream_message e)
  else ae_message e.

Definition msg_authentication : jsstring :=
  js "Authentication failed. Please check your API key.".
Definition msg_rate_limit : jsstring :=
  js "Rate limit exceeded. Please try again later.".
Definition msg_server_error : jsstring :=
  js "Mistral API server error. Please try again later.".
Definition msg_other (st : option Z) (m : jsstring) : jsstring :=
  js "Mistral API error (" ++ status_text st ++ js "): " ++ m.

(** [JSON.stringify(error.response?.data)] inside a template. *)
Definition stringify_text `{JsRuntime} (d : option JSON) : jsstring :=
  match d with
  | Some v => JSON_stringify v
  | None => js "undefined"
  end.

(** What the [catch] block of [chatCompletion] throws for a caught [error]. *)
Definition chatCompletion_catch `{JsRuntime} (error : Exn) : Exn :=
  match error with
  | AxiosError_ e =>
      let st := response_status e in
      let m := failure_message e in
      match switch_status st with
      | Arm401 => Error_ msg_authentication
      | Arm429 => Error_ msg_rate_limit
      | Arm500 => Error_ msg_server_error
      | ArmDefault => Error_ (msg_other st m)
      end
  | _ => error
  end.

(** What the [catch] block of [fimCompletion] throws for a caught [error]. *)
Definition fimCompletion_catch `{JsRuntime} (error : Exn) : Exn :=
  match error with
  | AxiosError_ e =>
      let st := response_status e in
      let m := failure_message e in
      match switch_status st with
      | Arm401 => Error_ msg_authentication
      | Arm429 => Error_ msg_rate_limit
      | Arm500 => Error_ msg_server_error
      | ArmDefault =>
          Error_ (msg_other st m ++ LF ++ js "Response: "
                    ++ stringify_text (response_data e))
      end
  | _ => Error_ (js "Unexpected error during FIM completion: " ++ exn_message error)
  end.

(** ** The two operations and the key check *)

Definition chatCompletion `{JsRuntime} (this : MistralAPI) (net : Network)
    (messages : list Message) (options : ChatOptions) : M CompletionResponse :=
  try_catch
    (let body := chat_body messages options in
     let client := getClient this (cb_model body) in
     response <- post net client (js "/chat/completions") (ChatReq body) ;;
     lift (CompletionResponseSchema_parse (data response)))
    (fun error => throw (chatCompletion_catch error)).

Definition fimCompletion `{JsRuntime} (this : MistralAPI) (net : Network)
    (prompt : jsstring) (options : FimOptions) : M CompletionResponse :=
  try_catch
    (let requestBody := fim_body prompt options in
     response <- post net (codestralClient this) (js "/fim/completions")
                   (FimReq requestBody) ;;
     lift (CompletionResponseSchema_parse (data response)))
    (fun error => throw (fimCompletion_catch error)).

Definition msg_invalid_key : jsstring :=
  js "Invalid API key. Please check your Codestral API key.".

Definition probe_messages : list Message :=
  [ {| role := js "user"; content := js "test" |} ].

Definition probe_options : ChatOptions :=
  {| opt_model := None; opt_temperature := None; opt_top_p := None;
     opt_max_tokens := Some 1%Q; opt_stop := None |}.

Definition validateApiKey `{JsRuntime} (this : MistralAPI) (net : Network) : M bool :=
  try_catch
    (_ <- chatCompletion this net probe_messages probe_options ;;
     ret true)
    (fun error =>
       match error with
       | AxiosError_ e =>
           match response_status e with
           | Some 401 => throw (Error_ msg_invalid_key)
           | _ => throw (Error_ (js "API validation failed: " ++ ae_message e))
           end
       | _ => throw error
       end).

(* ================================================================== *)
(** * Request pacer *)
(* ================================================================== *)

(** The delay Node gives a timer: [setTimeout] replaces a delay below 1 or
    above 2147483647 milliseconds by 1. *)
Definition node_timeout_delay (delay : Z) : Z :=
  if (delay <? 1) || (2147483647 <? delay) then 1 else delay.

(** [enforceRateLimit]. [clock] is the environment: the milliseconds by which
    [Date.now()] has advanced from the first reading of the method to the
    last, when a timer of the given delay was awaited in between
    ([Some delay]) and when none was ([None]). Timers do not run on the clock
    of [Date.now()]: by that clock a timer may fire late, or early. The
    method is private and the class has no call of it. *)
Definition enforceRateLimit (this : MistralAPI) (clock : option Z -> Z) (w : World)
    : MistralAPI * World :=
  let now0 := now w in
  let timeSinceLastRequest := now0 - lastRequestTime this in
  let w1 :=
    if timeSinceLastRequest <? minRequestInterval this
    then {| now := now w
                   + clock (Some (node_timeout_delay
                                    (minRequestInterval this - timeSinceLastRequest)));
            dispatched := dispatched w |}
    else {| now := now w + clock None; dispatched := dispatched w |} in
  ({| oid := oid this;
      apiKey := apiKey this;
      codestralClient := codestralClient this;
      mistralClient := mistralClient this;
      lastRequestTime := now w1;
      minRequestInterval := minRequestInterval this |}, w1).

(** A timer that fires exactly when asked, on a clock that stands still
    between two readings with no timer; and one that fires a millisecond
    early. *)
Definition exact_clock (o : option Z) : Z :=
  match o with
  | Some delay => delay
  | None => 0
  end.

Definition early_clock (o : option Z) : Z :=
  match o with
  | Some delay => delay - 1
  | None => 0
  end.

(** The gaps between consecutive timestamps of a log. *)
Fixpoint gaps (ts : list Z) : list Z :=
  match ts with
  | a :: ((b :: _) as rest) => (b - a) :: gaps rest
  | _ => []
  end.

Definition dispatch_times (w : World) : list Z := map fst (dispatched w).

(* ================================================================== *)
(** * The process-wide accessor *)
(* ================================================================== *)

(** The module-level [instance] and the allocator of object identities. *)
Record ModuleState : Type := mkModuleState {
  instance : option MistralAPI;
  next_oid : nat
}.

Definition getMistralAPI (key : jsstring) (st : ModuleState)
    : Result Exn MistralAPI * ModuleState :=
  match instance st with
  | Some i => (Ok i, st)
  | None =>
      match new_MistralAPI (next_oid st) key with
      | Ok i => (Ok i, {| instance := Some i; next_oid := S (next_oid st) |})
      | Throw e => (Throw e, {| instance := None; next_oid := S (next_oid st) |})
      end
  end.

(** ** Names for the statements *)

(** The request [chatCompletion] sends for given messages and options. *)
Definition chat_request (this : MistralAPI) (messages : list Message)
    (options : ChatOptions) : Request :=
  {| req_client := getClient this (cb_model (chat_body messages options));
     req_path := js "/chat/completions";
     req_body := ChatReq (chat_body messages options) |}.

(** The request [fimCompletion] sends for a given prompt and options. *)
Definition fim_request (this : MistralAPI) (prompt : jsstring)
    (options : FimOptions) : Request :=
  {| req_client := codestralClient this;
     req_path := js "/fim/completions";
     req_body := FimReq (fim_body prompt options) |}.

(** A network on which every call settles the same way after the same time. *)
Definition always (latency : N) (outcome : PostOutcome) : Network :=
  fun _ _ => (latency, outcome).




(** A runtime to evaluate examples with; none of them renders a number, a
    body or a zod issue. *)
Definition example_runtime : JsRuntime :=
  {| Number_toString := fun _ => [];
     JSON_stringify := fun _ => [];
     ZodError_message := fun _ => [] |}.

Definition example_client : MistralAPI :=
  {| oid := 0;
     apiKey := js "key";
     codestralClient := axios_create CODESTRAL_API_BASE (js "key");
     mistralClient := axios_create MISTRAL_API_BASE (js "key");
     lastRequestTime := 0;
     minRequestInterval := 100 |}.

Definition no_chat_options : ChatOptions :=
  {| opt_model := None; opt_temperature := None; opt_top_p := None;
     opt_max_tokens := None; opt_stop := None |}.

Definition no_fim_options : FimOptions :=
  {| fopt_suffix := None; fopt_temperature := None; fopt_top_p := None;
     fopt_max_tokens := None; fopt_stop := None |}.

(** A connection that timed out: axios rejects without a response. *)
Definition timeout_error : AxiosError :=
  {| ae_message := js "timeout of 30000ms exceeded"; ae_response := None |}.


(** A 404 with an upstream message. *)
Definition not_found_error : AxiosError :=
  {| ae_message := js "Request failed with status code 404";
     ae_response :=
       Some {| status := 404;
               data := Some (JObj [(js "error",
                                    JObj [(js "message", JStr (js "Not found"))])]) |} |}.

(** ** The reply shape, as the specification lists it *)

Definition field (f : list (jsstring * JSON)) (key : string) : option JSON :=
  get_field (js key) f.

Definition is_text (v : option JSON) : Prop := exists s, v = Some (JStr s).

Definition is_number (v : option JSON) : Prop := exists q, v = Some (JNum q).

Definition is_optional_text (v : option JSON) : Prop := v = None \/ is_text v.

Definition is_message (v : option JSON) : Prop :=
  exists f, v = Some (JObj f)
    /\ is_text (field f "role")
    /\ is_text (field f "content").

Definition is_choice (v : option JSON) : Prop :=
  exists f, v = Some (JObj f)
    /\ is_number (field f "index")
    /\ is_message (field f "message")
    /\ is_optional_text (field f "finish_reason").

Definition is_usage (v : option JSON) : Prop :=
  exists f, v = Some (JObj f)
    /\ is_number (field f "prompt_tokens")
    /\ is_number (field f "completion_tokens")
    /\ is_number (field f "total_tokens").

(** id (text), object (text), created (number), model (text), choices
    (sequence, each with index, message and optional finish_reason), usage
    (three numbers). *)
Definition expected_shape (body : option JSON) : Prop :=
  exists f, body = Some (JObj f)
    /\ is_text (field f "id")
    /\ is_text (field f "object")
    /\ is_number (field f "created")
    /\ is_text (field f "model")
    /\ (exists items, field f "choices" = Some (JArr items)
                      /\ Forall (fun c => is_choice (Some c)) items)
    /\ is_usage (field f "usage").

(** A reply whose usage lacks [total_tokens]. *)
Definition reply_without_total_tokens : JSON :=
  JObj [ (js "id", JStr (js "cmpl-1"));
         (js "object", JStr (js "chat.completion"));
         (js "created", JNum 1700000000%Q);
         (js "model", JStr (js "codestral-latest"));
         (js "choices", JArr []);
         (js "usage", JObj [ (js "prompt_tokens", JNum 3%Q);
                             (js "completion_tokens", JNum 0%Q) ]) ].

(** A well-formed reply with no choices. *)
Definition reply_without_choices : JSON :=
  JObj [ (js "id", JStr (js "cmpl-1"));
         (js "object", JStr (js "chat.completion"));
         (js "created", JNum 1700000000%Q);
         (js "model", JStr (js "codestral-latest"));
         (js "choices", JArr []);
         (js "usage", JObj [ (js "prompt_tokens", JNum 3%Q);
                             (js "completion_tokens", JNum 0%Q);
                             (js "total_tokens", JNum 3%Q) ]) ].

(** ** What a failed validation reports *)

(** A failure always names at least one issue. *)
Definition reports {A} (r : ZodResult A) : Prop :=
  match r with
  | ZodFail [] => False
  | _ => True
  end.

(** [r] fails and one of its issues is at [path]. *)
Definition fails_at {A} (r : ZodResult A) (path : ZodIssue) : Prop :=
  exists issues, r = ZodFail issues /\ In path issues.

(** The extractor examples of the specification. *)
Definition two_blocks_text : jsstring :=
  js "prefix ```js" ++ LF ++ js "code1" ++ LF ++ js "``` middle ```" ++ LF
    ++ js "code2" ++ LF ++ js "``` suffix".

Definition two_blocks_code : jsstring :=
  js "code1" ++ LF ++ LF ++ js "code2".

(* ================================================================== *)
(** * Tool input schemas *)
(* ================================================================== *)

Module ZodTools.

Definition z_boolean : Parser bool :=
  fun v => match v with Some (JBool b) => ZodOk b | _ => ZodFail [[]] end.

(** [z.enum(values)]: a string that is one of [values]. *)
Definition z_enum (values : list jsstring) : Parser jsstring :=
  fun v =>
    match v with
    | Some (JStr s) => if existsb (jseqb s) values then ZodOk s else ZodFail [[]]
    | _ => ZodFail [[]]
    end.

(** [z.number().min(lo).max(hi)]. *)
Definition z_number_min_max (lo hi : Q) : Parser Q :=
  fun v =>
    match v with
    | Some (JNum q) =>
        if Qle_bool lo q && Qle_bool q hi then ZodOk q else ZodFail [[]]
    | _ => ZodFail [[]]
    end.

(** [z.number().positive()]. *)
Definition z_number_positive : Parser Q :=
  fun v =>
    match v with
    | Some (JNum q) => if Qle_bool q 0 then ZodFail [[]] else ZodOk q
    | _ => ZodFail [[]]
    end.

End ZodTools.
Import ZodTools.

(** The strings of the task kinds. *)
Definition task_name (t : Task) : jsstring :=
  match t with
  | task_complete => js "complete"
  | task_fix => js "fix"
  | task_test => js "test"
  | task_fim => js "fim"
  end.

Definition all_tasks : list Task := [task_complete; task_fix; task_test; task_fim].

(** [z.enum(['complete', 'fix', 'test', 'fim'])]. *)
Definition z_task : Parser Task :=
  fun v =>
    match v with
    | Some (JStr s) =>
        match find (fun t => jseqb s (task_name t)) all_tasks with
        | Some t => ZodOk t
        | None => ZodFail [[]]
        end
    | _ => ZodFail [[]]
    end.

Record CodeCompletionParams : Type := mkCodeCompletionParams {
  p_code : jsstring;
  p_language : option jsstring;
  p_task : Task;
  p_model : option MistralModel;
  p_suffix : option jsstring;
  p_temperature : option Q;
  p_top_p : option Q;
  p_max_tokens : option Q;
  p_stop : option (list jsstring);
  p_outputPath : option jsstring;
  p_streamToFile : option bool
}.

Definition CodeCompletionSchema : Parser CodeCompletionParams :=
  z_object (fun f =>
    zod_ap (zod_ap (zod_ap (zod_ap (zod_ap (zod_ap (zod_ap (zod_ap (zod_ap (zod_ap
      (zod_map mkCodeCompletionParams (z_key "code" z_string f))
      (z_key "language" (z_optional z_string) f))
      (z_key "task" z_task f))
      (z_key "model"
         (z_optional (z_enum [MISTRAL_MODELS CODESTRAL; MISTRAL_MODELS CODESTRAL_MAMBA])) f))
      (z_key "suffix" (z_optional z_string) f))
      (z_key "temperature" (z_optional (z_number_min_max 0 1)) f))
      (z_key "top_p" (z_optional (z_number_min_max 0 1)) f))
      (z_key "max_tokens" (z_optional z_number_positive) f))
      (z_key "stop" (z_optional (z_array z_string)) f))
      (z_key "outputPath" (z_optional z_string) f))
      (z_key "streamToFile" (z_optional z_boolean) f)).

Record ChatParams : Type := mkChatParams {
  c_messages : list Message;
  c_model : option MistralModel;
  c_temperature : option Q;
  c_top_p : option Q;
  c_max_tokens : option Q;
  c_stop : option (list jsstring)
}.

Definition chat_message_schema : Parser Message :=
  z_object (fun f =>
    zod_ap (zod_map mkMessage
              (z_key "role" (z_enum [js "system"; js "user"; js "assistant"]) f))
           (z_key "content" z_string f)).

Definition ChatSchema : Parser ChatParams :=
  z_object (fun f =>
    zod_ap (zod_ap (zod_ap (zod_ap (zod_ap
      (zod_map mkChatParams (z_key "messages" (z_array chat_message_schema) f))
      (z_key "model"
         (z_optional (z_enum [MISTRAL_MODELS MISTRAL_LARGE; MISTRAL_MODELS MISTRAL_SMALL;
                              MISTRAL_MODELS MINISTRAL_8B; MISTRAL_MODELS MINISTRAL_3B])) f))
      (z_key "temperature" (z_optional (z_number_min_max 0 1)) f))
      (z_key "top_p" (z_optional (z_number_min_max 0 1)) f))
      (z_key "max_tokens" (z_optional z_number_positive) f))
      (z_key "stop" (z_optional (z_array z_string)) f)).

(** [schema.parse(args)]. *)
Definition zod_parse {A} (schema : Parser A) (args : option JSON) : Result Exn A :=
  match schema args with
  | ZodOk a => Ok a
  | ZodFail issues => Throw (ZodError_ issues)
  end.

(* ================================================================== *)
(** * Tool execution: the [CallToolRequestSchema] handler *)
(* ================================================================== *)

(** What the handler takes from Node without this repository defining it:
    [path.dirname], and the message of the [TypeError] that reading
    [.message] of [undefined] raises. *)
Class NodeRuntime : Type := {
  path_dirname : jsstring -> jsstring;
  read_of_undefined_message : jsstring
}.

(** The completed operations on the file system, oldest first. *)
Inductive FsOp : Type :=
| Mkdir (dir : jsstring)
| WriteFile (path content : jsstring).

(** The file system: for an operation after the ones already done, the error
    it rejects with, or [None] when it goes through. *)
Definition FileSystem : Type := list FsOp -> FsOp -> option Exn.

Record Env : Type := mkEnv {
  env_world : World;
  env_fs : list FsOp
}.

(** The handler's reply [{ content: [{ type: "text", text }], isError }]. *)
Record ToolResult : Type := mkToolResult {
  tr_text : jsstring;
  tr_isError : bool
}.

(** [error instanceof Error ? error.message : 'Unknown error occurred']: every
    value the modelled code throws is an [Error]. *)
Definition error_message_or_unknown `{JsRuntime} (e : Exn) : jsstring :=
  exn_message e.

Definition error_result `{JsRuntime} (e : Exn) : ToolResult :=
  {| tr_text := js "Error: " ++ error_message_or_unknown e; tr_isError := true |}.

Definition save_error_result `{JsRuntime} (e : Exn) : ToolResult :=
  {| tr_text := js "Error saving to file: " ++ error_message_or_unknown e;
     tr_isError := true |}.

Definition text_result (t : jsstring) : ToolResult :=
  {| tr_text := t; tr_isError := false |}.

(** The options the chat tool passes to [chatCompletion]. *)
Definition chat_tool_options (params : ChatParams) : ChatOptions :=
  {| opt_model :=
       Some (if truthy (c_model params) then or_empty (c_model params)
             else MISTRAL_MODELS MISTRAL_LARGE);
     opt_temperature := c_temperature params;
     opt_top_p := c_top_p params;
     opt_max_tokens := c_max_tokens params;
     opt_stop := c_stop params |}.

(** [completion.choices[0].message.content]; on an empty list the read of
    [.message] raises a [TypeError]. *)
Definition first_choice_content `{NodeRuntime} (completion : CompletionResponse)
    : Result Exn jsstring :=
  match choices completion with
  | [] => Throw (Error_ read_of_undefined_message)
  | first :: _ => Ok (cm_content (message first))
  end.

(** The branch [name === "chat"]. *)
Definition handle_chat `{JsRuntime} `{NodeRuntime} (this : MistralAPI) (net : Network)
    (args : option JSON) (env : Env) : ToolResult * Env :=
  match zod_parse ChatSchema args with
  | Throw e => (error_result e, env)
  | Ok params =>
      match chatCompletion this net (c_messages params) (chat_tool_options params)
              (env_world env) with
      | (Throw e, w') => (error_result e, {| env_world := w'; env_fs := env_fs env |})
      | (Ok completion, w') =>
          let env' := {| env_world := w'; env_fs := env_fs env |} in
          match first_choice_content completion with
          | Ok content => (text_result content, env')
          | Throw e => (error_result e, env')
          end
      end
  end.

(** The options the code tool passes to the two operations. *)
Definition code_tool_fim_options (params : CodeCompletionParams) : FimOptions :=
  {| fopt_suffix := p_suffix params;
     fopt_temperature := p_temperature params;
     fopt_top_p := p_top_p params;
     fopt_max_tokens := p_max_tokens params;
     fopt_stop := p_stop params |}.

Definition code_tool_chat_options (params : CodeCompletionParams) : ChatOptions :=
  {| opt_model := p_model params;
     opt_temperature := p_temperature params;
     opt_top_p := p_top_p params;
     opt_max_tokens := p_max_tokens params;
     opt_stop := p_stop params |}.

(** The upstream call of the code tool. *)
Definition code_tool_call `{JsRuntime} (this : MistralAPI) (net : Network)
    (params : CodeCompletionParams) : M CompletionResponse :=
  if is_fim (p_task params)
  then fimCompletion this net (p_code params) (code_tool_fim_options params)
  else chatCompletion this net
         (createPrompt (p_code params) (p_language params) (p_task params)
            (p_suffix params))
         (code_tool_chat_options params).

(** One operation on the file system: it is recorded when it goes through. *)
Definition fs_do (fs : FileSystem) (op : FsOp) (done : list FsOp)
    : option Exn * list FsOp :=
  match fs done op with
  | Some e => (Some e, done)
  | None => (None, done ++ [op])
  end.

(** The block [if (params.outputPath) { ... }]: [Some] reply when the handler
    returns from inside it, [None] when it falls through. *)
Definition save_output `{JsRuntime} `{NodeRuntime} (fs : FileSystem)
    (params : CodeCompletionParams) (formattedResponse : jsstring)
    (done : list FsOp) : option ToolResult * list FsOp :=
  if truthy (p_outputPath params)
  then
    let outputPath := or_empty (p_outputPath params) in
    match fs_do fs (Mkdir (path_dirname outputPath)) done with
    | (Some e, done1) => (Some (save_error_result e), done1)
    | (None, done1) =>
        match fs_do fs (WriteFile outputPath formattedResponse) done1 with
        | (Some e, done2) => (Some (save_error_result e), done2)
        | (None, done2) =>
            match p_streamToFile params with
            | Some true =>
                (Some (text_result (js "Successfully saved to " ++ outputPath)), done2)
            | _ => (None, done2)
            end
        end
    end
  else (None, done).

(** The branch [name === "code_completion"]. *)
Definition handle_code_completion `{JsRuntime} `{NodeRuntime} (this : MistralAPI)
    (net : Network) (fs : FileSystem) (args : option JSON) (env : Env)
    : ToolResult * Env :=
  match zod_parse CodeCompletionSchema args with
  | Throw e => (error_result e, env)
  | Ok params =>
      match code_tool_call this net params (env_world env) with
      | (Throw e, w') => (error_result e, {| env_world := w'; env_fs := env_fs env |})
      | (Ok completion, w') =>
          match formatResponse completion with
          | Throw e => (error_result e, {| env_world := w'; env_fs := env_fs env |})
          | Ok formattedResponse =>
              match save_output fs params formattedResponse (env_fs env) with
              | (Some reply, done) => (reply, {| env_world := w'; env_fs := done |})
              | (None, done) =>
                  (text_result formattedResponse, {| env_world := w'; env_fs := done |})
              end
          end
      end
  end.

(** The handler of [CallToolRequestSchema]. *)
Definition callTool `{JsRuntime} `{NodeRuntime} (this : MistralAPI) (net : Network)
    (fs : FileSystem) (name : jsstring) (args : option JSON) (env : Env)
    : Result Exn ToolResult * Env :=
  if jseqb name (js "chat")
  then let '(r, env') := handle_chat this net args env in (Ok r, env')
  else if jseqb name (js "code_completion")
  then let '(r, env') := handle_code_completion this net fs args env in (Ok r, env')
  else (Throw (Error_ (js "Unknown tool: " ++ name)), env).

(* ================================================================== *)
(** * Process start *)
(* ================================================================== *)

(** [envSchema.parse(process.env)], for the value of [MISTRAL_API_KEY]. *)
Definition envSchema_parse (key : option jsstring) : Result Exn jsstring :=
  match key with
  | Some (c :: k) => Ok (c :: k)
  | _ => Throw (ZodError_ [[PKey (js "MISTRAL_API_KEY")]])
  end.

(** How the top of the entry point ends: the client is ready, the process
    exits, or the module fails with an uncaught exception. *)
Inductive StartOutcome : Type :=
| Ready (mistralApi : MistralAPI)
| ProcessExit (code : Z)
| Uncaught (e : Exn).

Definition initialize `{JsRuntime} (key : option jsstring) (net : Network)
    (st : ModuleState) (w : World) : StartOutcome * ModuleState * World :=
  match envSchema_parse key with
  | Throw e => (Uncaught e, st, w)
  | Ok k =>
      match getMistralAPI k st with
      | (Throw _, st') => (ProcessExit 1, st', w)
      | (Ok api, st') =>
          match validateApiKey api net w with
          | (Ok _, w') => (Ready api, st', w')
          | (Throw _, w') => (ProcessExit 1, st', w')
          end
      end
  end.

(* ================================================================== *)
(** * Runs of several calls *)
(* ================================================================== *)

(** Calls of [enforceRateLimit] one after the other; before each call the
    clock moves on by [idle] milliseconds. The times at which the calls
    return. *)
Fixpoint paced_returns (this : MistralAPI) (clock : option Z -> Z) (idles : list N)
    (w : World) : list Z :=
  match idles with
  | [] => []
  | idle :: rest =>
      let w0 := {| now := now w + Z.of_N idle; dispatched := dispatched w |} in
      let '(this', w') := enforceRateLimit this clock w0 in
      now w' :: paced_returns this' clock rest w'
  end.

(** Calls of [getMistralAPI] one after the other. *)
Fixpoint getMistralAPI_calls (keys : list jsstring) (st : ModuleState)
    : list (Result Exn MistralAPI) * ModuleState :=
  match keys with
  | [] => ([], st)
  | k :: rest =>
      let '(r, st') := getMistralAPI k st in
      let '(rs, st'') := getMistralAPI_calls rest st' in
      (r :: rs, st'')
  end.

(** The request the code tool sends for validated arguments. *)
Definition code_tool_request (this : MistralAPI) (params : CodeCompletionParams)
    : Request :=
  if is_fim (p_task params)
  then fim_request this (p_code params) (code_tool_fim_options params)
  else chat_request this
         (createPrompt (p_code params) (p_language params) (p_task params)
            (p_suffix params))
         (code_tool_chat_options params).

(** A runtime for Node to evaluate examples with. *)
Definition example_node : NodeRuntime :=
  {| path_dirname := fun p => p;
     read_of_undefined_message :=
       js "Cannot read properties of undefined (reading 'message')" |}.

(** Arguments of a fill-in-the-middle call that asks for the other
    code-specialised model and for the result to be saved. *)
Definition example_fim_args : JSON :=
  JObj [ (js "code", JStr (js "def add(a, b):"));
         (js "task", JStr (js "fim"));
         (js "language", JStr (js "python"));
         (js "model", JStr (js "codestral-mamba-latest"));
         (js "suffix", JStr (js "return a + b"));
         (js "temperature", JNum (1 # 2)%Q);
         (js "outputPath", JStr (js "out/add.py"));
         (js "streamToFile", JBool true) ].

(** Arguments of a bug-fixing call with a suffix. *)
Definition example_fix_args : JSON :=
  JObj [ (js "code", JStr (js "x = 1"));
         (js "task", JStr (js "fix"));
         (js "suffix", JStr (js "print(x)")) ].

(** Arguments of a chat call. *)
Definition example_chat_args : JSON :=
  JObj [ (js "messages",
          JArr [ JObj [ (js "role", JStr (js "user"));
                        (js "content", JStr (js "hello")) ] ]);
         (js "top_p", JNum (9 # 10)%Q) ].

(** A well-formed reply whose one choice holds a fenced block. *)
Definition fenced_reply_content : jsstring :=
  js "Here you go:" ++ LF ++ FENCE ++ js "python" ++ LF
    ++ js "return a + b" ++ LF ++ FENCE.

Definition reply_with_fenced_code : JSON :=
  JObj [ (js "id", JStr (js "cmpl-2"));
         (js "object", JStr (js "chat.completion"));
         (js "created", JNum 1700000000%Q);
         (js "model", JStr (js "codestral-latest"));
         (js "choices",
          JArr [ JObj [ (js "index", JNum 0%Q);
                        (js "message",
                         JObj [ (js "role", JStr (js "assistant"));
                                (js "content", JStr fenced_reply_content) ]);
                        (js "finish_reason", JStr (js "stop")) ] ]);
         (js "usage", JObj [ (js "prompt_tokens", JNum 3%Q);
                             (js "completion_tokens", JNum 4%Q);
                             (js "total_tokens", JNum 7%Q) ]) ].

(** An upstream that answers every request with [body] after 40 ms. *)
Definition replies_with (body : JSON) : Network :=
  always 40 (Resolved {| status := 200; data := Some body |}).

(** A file system on which every operation goes through, and one on which
    none does. *)
Definition fs_ok : FileSystem := fun _ _ => None.

Definition fs_read_only : FileSystem :=
  fun _ _ => Some (Error_ (js "EROFS: read-only file system")).

Definition fresh_env : Env :=
  {| env_world := {| now := 0; dispatched := [] |}; env_fs := [] |}.

(** The keys [CompletionResponseSchema] reads at the top of a reply. *)
Definition reply_keys : list jsstring :=
  [js "id"; js "object"; js "created"; js "model"; js "choices"; js "usage"].

(** The well-formed reply with no choices, with one more field in front
    and its fields in another order. *)
Definition reply_with_extra_field : JSON :=
  JObj [ (js "system_fingerprint", JStr (js "fp_1"));
         (js "usage", JObj [ (js "prompt_tokens", JNum 3%Q);
                             (js "completion_tokens", JNum 0%Q);
                             (js "total_tokens", JNum 3%Q) ]);
         (js "choices", JArr []);
         (js "model", JStr (js "codestral-latest"));
         (js "created", JNum 1700000000%Q);
         (js "object", JStr (js "chat.completion"));
         (js "id", JStr (js "cmpl-1")) ].

(* ================================================================== *)
(** * Properties *)
(* ================================================================== *)

(** ** Strings *)

Lemma jseqb_refl (a : jsstring) : jseqb a a = true.
Proof.
  induction a as [|x a IH]; simpl; [reflexivity|].
  now rewrite N.eqb_refl, IH.
Qed.

Lemma jseqb_eq (a b : jsstring) : jseqb a b = true <-> a = b.
Proof.
  split.
  - revert b; induction a as [|x a IH]; intros [|y b]; simpl; try discriminate; auto.
    intros H; apply andb_true_iff in H as [Hx Hr].
    apply N.eqb_eq in Hx; subst; f_equal; auto.
  - intros ->; apply jseqb_refl.
Qed.

(** ** Endpoint router *)

(** C5. The router sends each of the two code-specialised identifiers to the
    code-specialised base and each of the four general-purpose identifiers to
    the general-purpose base: every entry of the table resolves to the one
    base of its declared capability class, and the two bases differ. *)
Theorem getApiBase_resolves_by_class :
  getApiBase (js "codestral-latest") = js "https://codestral.mistral.ai/v1"
  /\ getApiBase (js "codestral-mamba-latest") = js "https://codestral.mistral.ai/v1"
  /\ getApiBase (js "mistral-large-latest") = js "https://api.mistral.com/v1"
  /\ getApiBase (js "mistral-small-latest") = js "https://api.mistral.com/v1"
  /\ getApiBase (js "ministral-8b-latest") = js "https://api.mistral.com/v1"
  /\ getApiBase (js "ministral-3b-latest") = js "https://api.mistral.com/v1"
  /\ (forall k : ModelKey,
        In k all_model_keys
        /\ getApiBase (MISTRAL_MODELS k) = base_of_class (declared_class k))
  /\ (forall k k' : ModelKey, MISTRAL_MODELS k = MISTRAL_MODELS k' -> k = k')
  /\ base_of_class CodeSpecialized <> base_of_class GeneralPurpose.
Proof.
  repeat split; try reflexivity.
  - destruct k; simpl; tauto.
  - destruct k; reflexivity.
  - intros k k'; destruct k, k'; intros E; try reflexivity; discriminate E.
  - discriminate.
Qed.

(** ** Prompt builder *)

(** C7, as the specification states it, fails: a present but empty suffix
    passes the input schema, and for it the specification's builder appends
    a second fenced block while [createPrompt] does not. *)
Lemma createPrompt_empty_suffix_counterexample :
  createPrompt (js "x") None task_fim (Some [])
    <> createPrompt_spec (js "x") None task_fim (Some [])
  /\ createPrompt (js "x") None task_fim (Some [])
     = [ {| role := js "system"; content := systemPrompts task_fim |};
         {| role := js "user";
            content := js "Here is the code:" ++ LF ++ LF
                         ++ FENCE ++ LF ++ js "x" ++ LF ++ FENCE |} ].
Proof.
  split; [|reflexivity].
  intros E; vm_compute in E; discriminate E.
Qed.

(** C7, amended. For every code, optional language, task kind and optional
    suffix, [createPrompt] returns exactly one system message, whose text is
    fixed by the task kind, followed by exactly one user message: the code
    fenced with the language tag (no tag when the language is absent or
    empty), followed by a second fenced block with the suffix if and only if
    the task is fim and the suffix is present and not empty. Equal inputs
    give equal message sequences. *)
Theorem createPrompt_messages (code : jsstring) (language : option jsstring)
    (task : Task) (suffix : option jsstring) :
  createPrompt code language task suffix
  = [ {| role := js "system"; content := systemPrompts task |};
      {| role := js "user";
         content :=
           user_preamble language ++ fenced language code
             ++ match task, suffix with
                | task_fim, Some (c :: s) =>
                    suffix_preamble ++ fenced language (c :: s)
                | _, _ => []
                end |} ]
  /\ (forall c l body,
        fenced (Some (c :: l)) body = FENCE ++ (c :: l) ++ LF ++ body ++ LF ++ FENCE)
  /\ (forall body,
        fenced None body = FENCE ++ LF ++ body ++ LF ++ FENCE
        /\ fenced (Some []) body = FENCE ++ LF ++ body ++ LF ++ FENCE)
  /\ (forall code' language' task' suffix',
        code' = code -> language' = language -> task' = task -> suffix' = suffix ->
        createPrompt code' language' task' suffix'
        = createPrompt code language task suffix).
Proof.
  repeat split.
  - unfold createPrompt, user_preamble, fenced, suffix_preamble.
    destruct task, suffix as [[|c s]|]; cbn [is_fim truthy andb or_empty];
      repeat (rewrite <- ?app_assoc, ?app_nil_r); reflexivity.
  - intros; subst; reflexivity.
Qed.

Lemma createPrompt_messages_witness :
  createPrompt (js "x") (Some (js "python")) task_fim (Some (js "y"))
  = [ {| role := js "system"; content := systemPrompts task_fim |};
      {| role := js "user";
         content :=
           user_preamble (Some (js "python")) ++ fenced (Some (js "python")) (js "x")
             ++ suffix_preamble ++ fenced (Some (js "python")) (js "y") |} ]
  /\ createPrompt (js "x") (Some (js "python")) task_fim (Some (js "y"))
     = createPrompt (js "x") (Some (js "python")) task_fim (Some (js "y")).
Proof.
  destruct (createPrompt_messages (js "x") (Some (js "python")) task_fim (Some (js "y")))
    as (Hvalue & _ & _ & Hsame).
  split; [exact Hvalue | apply Hsame; reflexivity].
Defined.

(** The examples of the specification: the fix prompt for code ["x"] has two
    messages, and the fim prompt for python code with a suffix has both fenced
    blocks. *)
Example createPrompt_fix_example :
  createPrompt (js "x") None task_fix None
  = [ {| role := js "system"; content := systemPrompts task_fix |};
      {| role := js "user";
         content := js "Here is the code:" ++ LF ++ LF
                      ++ FENCE ++ LF ++ js "x" ++ LF ++ FENCE |} ].
Proof. reflexivity. Qed.

Example createPrompt_fim_example :
  createPrompt (js "x") (Some (js "python")) task_fim (Some (js "y"))
  = [ {| role := js "system"; content := systemPrompts task_fim |};
      {| role := js "user";
         content := js "Here is the python code:" ++ LF ++ LF
                      ++ FENCE ++ js "python" ++ LF ++ js "x" ++ LF ++ FENCE
                      ++ LF ++ LF ++ js "The code should end with:" ++ LF ++ LF
                      ++ FENCE ++ js "python" ++ LF ++ js "y" ++ LF ++ FENCE |} ].
Proof. reflexivity. Qed.

(** ** Upstream client: how a call runs *)

Section Runs.
Context `{JsRuntime}.

Lemma chatCompletion_run (this : MistralAPI) (net : Network)
    (messages : list Message) (options : ChatOptions) (w : World) :
  chatCompletion this net messages options w
  = let req := chat_request this messages options in
    let w' := {| now := now w + Z.of_N (fst (net w req));
                 dispatched := dispatched w ++ [(now w, req)] |} in
    match snd (net w req) with
    | Resolved r =>
        match CompletionResponseSchema_parse (data r) with
        | Ok v => (Ok v, w')
        | Throw e => (Throw (chatCompletion_catch e), w')
        end
    | Rejected e => (Throw (chatCompletion_catch e), w')
    end.
Proof.
  unfold chatCompletion, try_catch, bind, post, lift, throw, chat_request.
  cbv zeta.
  destruct (net w _) as [lat [r|e]]; cbn [fst snd]; [|reflexivity].
  destruct (CompletionResponseSchema_parse (data r)); reflexivity.
Qed.

Lemma fimCompletion_run (this : MistralAPI) (net : Network)
    (prompt : jsstring) (options : FimOptions) (w : World) :
  fimCompletion this net prompt options w
  = let req := fim_request this prompt options in
    let w' := {| now := now w + Z.of_N (fst (net w req));
                 dispatched := dispatched w ++ [(now w, req)] |} in
    match snd (net w req) with
    | Resolved r =>
        match CompletionResponseSchema_parse (data r) with
        | Ok v => (Ok v, w')
        | Throw e => (Throw (fimCompletion_catch e), w')
        end
    | Rejected e => (Throw (fimCompletion_catch e), w')
    end.
Proof.
  unfold fimCompletion, try_catch, bind, post, lift, throw, fim_request.
  cbv zeta.
  destruct (net w _) as [lat [r|e]]; cbn [fst snd]; [|reflexivity].
  destruct (CompletionResponseSchema_parse (data r)); reflexivity.
Qed.

(** Each operation sends exactly one request, at the time it is called. *)
Lemma chatCompletion_dispatch (this : MistralAPI) (net : Network)
    (messages : list Message) (options : ChatOptions) (w : World) :
  let w' := snd (chatCompletion this net messages options w) in
  dispatched w' = dispatched w ++ [(now w, chat_request this messages options)]
  /\ now w' = now w + Z.of_N (fst (net w (chat_request this messages options))).
Proof.
  rewrite chatCompletion_run; cbv zeta.
  destruct (snd (net w _)) as [r|e];
    [destruct (CompletionResponseSchema_parse (data r))|]; split; reflexivity.
Qed.

Lemma fimCompletion_dispatch (this : MistralAPI) (net : Network)
    (prompt : jsstring) (options : FimOptions) (w : World) :
  let w' := snd (fimCompletion this net prompt options w) in
  dispatched w' = dispatched w ++ [(now w, fim_request this prompt options)]
  /\ now w' = now w + Z.of_N (fst (net w (fim_request this prompt options))).
Proof.
  rewrite fimCompletion_run; cbv zeta.
  destruct (snd (net w _)) as [r|e];
    [destruct (CompletionResponseSchema_parse (data r))|]; split; reflexivity.
Qed.

End Runs.

(** ** Request defaults *)

(** C6. With the sampling parameters omitted, the body [chatCompletion] sends
    has temperature 0.7, top_p 1 and max_tokens 1000, and the body
    [fimCompletion] sends has temperature 0, top_p 1 and max_tokens 1000;
    whatever its options, the model of the fim body is the code-specialised
    default identifier. *)
Theorem request_body_defaults `{JsRuntime} (this : MistralAPI) (net : Network) (w : World) :
  (forall messages m stop,
     let options := {| opt_model := m; opt_temperature := None; opt_top_p := None;
                       opt_max_tokens := None; opt_stop := stop |} in
     let model := if truthy m then or_empty m else js "codestral-latest" in
     dispatched (snd (chatCompletion this net messages options w))
     = dispatched w
         ++ [(now w,
              {| req_client := getClient this model;
                 req_path := js "/chat/completions";
                 req_body :=
                   ChatReq {| cb_model := model;
                              cb_messages := messages;
                              cb_temperature := (7 # 10)%Q;
                              cb_top_p := 1%Q;
                              cb_max_tokens := 1000%Q;
                              cb_stop := stop |} |})])
  /\ (forall prompt suffix stop,
        let options := {| fopt_suffix := suffix; fopt_temperature := None;
                          fopt_top_p := None; fopt_max_tokens := None;
                          fopt_stop := stop |} in
        dispatched (snd (fimCompletion this net prompt options w))
        = dispatched w
            ++ [(now w,
                 {| req_client := codestralClient this;
                    req_path := js "/fim/completions";
                    req_body :=
                      FimReq {| fb_model := js "codestral-latest";
                                fb_prompt := prompt;
                                fb_suffix := suffix;
                                fb_temperature := 0%Q;
                                fb_top_p := 1%Q;
                                fb_max_tokens := 1000%Q;
                                fb_stop := stop |} |})])
  /\ (forall prompt options,
        exists body,
          dispatched (snd (fimCompletion this net prompt options w))
          = dispatched w
              ++ [(now w, {| req_client := codestralClient this;
                             req_path := js "/fim/completions";
                             req_body := FimReq body |})]
          /\ fb_model body = js "codestral-latest")
  /\ (forall messages options,
        cb_model (chat_body messages options)
        = if truthy (opt_model options) then or_empty (opt_model options)
          else js "codestral-latest").
Proof.
  repeat split.
  - intros messages m stop options model.
    apply chatCompletion_dispatch.
  - intros prompt suffix stop options.
    apply fimCompletion_dispatch.
  - intros prompt options. exists (fim_body prompt options).
    split; [apply fimCompletion_dispatch | reflexivity].
Qed.

(** ** The process-wide accessor *)

(** C10. Once a call of [getMistralAPI] has returned an instance, every later
    call returns that same object whatever key it is given, and leaves the
    module state as it is; the instance a first call builds is authenticated
    with the (trimmed) key of that call. *)
Theorem getMistralAPI_singleton (st st1 : ModuleState) (key1 key2 : jsstring)
    (first : MistralAPI) :
  getMistralAPI key1 st = (Ok first, st1) ->
  getMistralAPI key2 st1 = (Ok first, st1)
  /\ (instance st = None ->
        oid first = next_oid st
        /\ apiKey first = trim key1
        /\ hdr_Authorization (codestralClient first) = js "Bearer " ++ trim key1
        /\ hdr_Authorization (mistralClient first) = js "Bearer " ++ trim key1).
Proof.
  unfold getMistralAPI.
  destruct (instance st) as [i|] eqn:Hi.
  - intros E; injection E as <- <-. rewrite Hi. split; [reflexivity|discriminate].
  - unfold new_MistralAPI.
    destruct (negb (truthy (Some key1)) || (List.length (trim key1) =? 0)%nat);
      [discriminate|].
    intros E; injection E as <- <-. cbn.
    split; [reflexivity|]. intros _; repeat split.
Qed.

Lemma getMistralAPI_singleton_witness :
  exists first st1,
    getMistralAPI (js "first-key") {| instance := None; next_oid := 0 |} = (Ok first, st1)
    /\ getMistralAPI (js "second-key") st1 = (Ok first, st1)
    /\ apiKey first = js "first-key".
Proof.
  eexists; eexists.
  split; [vm_compute; reflexivity|].
  split.
  - eapply (getMistralAPI_singleton {| instance := None; next_oid := 0 |}
              (js "first-key") (js "second-key")).
    vm_compute; reflexivity.
  - reflexivity.
Defined.

(** If the first call throws, no instance is kept, and the next call builds
    one from its own key. *)
Remark getMistralAPI_after_failed_construction :
  let st0 := {| instance := None; next_oid := 0 |} in
  fst (getMistralAPI (js "  ") st0) = Throw (Error_ (js "API key cannot be empty"))
  /\ exists i,
       fst (getMistralAPI (js "second-key") (snd (getMistralAPI (js "  ") st0))) = Ok i
       /\ apiKey i = js "second-key".
Proof.
  split; [reflexivity|]. eexists; split; reflexivity.
Qed.

(** ** Request pacer *)


(** X28. Neither operation waits before it sends: of two calls in immediate
    succession, a chat call and then a fill-in-the-middle call, the second is
    dispatched when the first has settled, whatever the time of the last
    request was. *)
Lemma back_to_back_dispatch_gap `{JsRuntime} (this : MistralAPI) (net : Network)
    (messages : list Message) (options : ChatOptions)
    (prompt : jsstring) (foptions : FimOptions) (w : World) :
  let w1 := snd (chatCompletion this net messages options w) in
  let w2 := snd (fimCompletion this net prompt foptions w1) in
  dispatch_times w2
  = dispatch_times w
      ++ [now w; now w + Z.of_N (fst (net w (chat_request this messages options)))].
Proof.
  cbv zeta. unfold dispatch_times.
  destruct (fimCompletion_dispatch this net prompt foptions
              (snd (chatCompletion this net messages options w))) as [D2 _].
  destruct (chatCompletion_dispatch this net messages options w) as [D1 N1].
  rewrite D2, D1, N1, !map_app, <- app_assoc. reflexivity.
Qed.

(** C1 fails on the code: [enforceRateLimit] is never called. Two chat calls
    issued back to back at time 1000, on a network that answers each in
    5 ms, are dispatched at 1000 and 1005: 5 ms apart, not 100, and the
    recorded time of the last request is not consulted. *)
Theorem pacer_not_invoked :
  let net := always 5 (Rejected (AxiosError_ timeout_error)) in
  let w0 := {| now := 1000; dispatched := [] |} in
  let w1 := snd (@chatCompletion example_runtime example_client net
                   probe_messages no_chat_options w0) in
  let w2 := snd (@chatCompletion example_runtime example_client net
                   probe_messages no_chat_options w1) in
  dispatch_times w2 = [1000; 1005]
  /\ gaps (dispatch_times w2) = [5]
  /\ 5 < minRequestInterval example_client.
Proof.
  cbv zeta. repeat split.
Qed.

(** ** Error translation *)







(** ** Startup key check *)

(** [chatCompletion] never lets an axios error out, so the branch of
    [validateApiKey] for axios errors is never taken: the key check fails
    with whatever [chatCompletion] threw. *)
Lemma validateApiKey_rethrows `{JsRuntime} (this : MistralAPI) (net : Network) (w : World) :
  fst (validateApiKey this net w)
  = match fst (chatCompletion this net probe_messages probe_options w) with
    | Ok _ => Ok true
    | Throw e => Throw e
    end.
Proof.
  unfold validateApiKey, try_catch, bind, ret, throw.
  rewrite chatCompletion_run; cbv zeta.
  destruct (snd (net w _)) as [r|e].
  - unfold CompletionResponseSchema_parse.
    destruct (CompletionResponseSchema (data r)); reflexivity.
  - destruct e as [a| |]; try reflexivity.
    cbn [chatCompletion_catch]. destruct (switch_status (response_status a)); reflexivity.
Qed.

(** C3 fails on the code. When the probe of [validateApiKey] is answered
    with status 401, the error that reaches the caller is the runtime
    "Authentication failed" error that [chatCompletion] gives any 401, not the
    startup message "Invalid API key. Please check your Codestral API key.". *)
Theorem validateApiKey_401_is_runtime_error `{JsRuntime} (this : MistralAPI) (w : World)
    (latency : N) (m : jsstring) (d : option JSON) :
  let e := {| ae_message := m;
              ae_response := Some {| status := 401; data := d |} |} in
  let net := always latency (Rejected (AxiosError_ e)) in
  fst (validateApiKey this net w)
  = Throw (Error_ (js "Authentication failed. Please check your API key."))
  /\ fst (validateApiKey this net w) <> Throw (Error_ msg_invalid_key)
  /\ dispatched (snd (validateApiKey this net w))
     = dispatched w ++ [(now w, chat_request this probe_messages probe_options)]
  /\ req_client (chat_request this probe_messages probe_options) = codestralClient this
  /\ cb_model (chat_body probe_messages probe_options) = js "codestral-latest"
  /\ cb_max_tokens (chat_body probe_messages probe_options) = 1%Q.
Proof.
  cbv zeta.
  assert (E : fst (validateApiKey this
                     (always latency (Rejected (AxiosError_
                        {| ae_message := m;
                           ae_response := Some {| status := 401; data := d |} |}))) w)
              = Throw (Error_ msg_authentication)).
  { rewrite validateApiKey_rethrows, chatCompletion_run. reflexivity. }
  split; [exact E|].
  split; [rewrite E; discriminate|].
  split; [|repeat split].
  unfold validateApiKey, try_catch, bind.
  rewrite chatCompletion_run. reflexivity.
Qed.

(** ** Response validator *)

Module ZodFacts.

Lemma at_path_ok {A} (seg : PathSeg) (r : ZodResult A) (a : A) :
  at_path seg r = ZodOk a <-> r = ZodOk a.
Proof. destruct r; simpl; split; congruence. Qed.

Lemma zod_map_ok {A B} (f : A -> B) (r : ZodResult A) (b : B) :
  zod_map f r = ZodOk b <-> exists a, r = ZodOk a /\ b = f a.
Proof.
  destruct r; simpl; split.
  - intros E; injection E as <-; eauto.
  - intros (x & E & ->); congruence.
  - discriminate.
  - intros (x & E & _); discriminate.
Qed.

Lemma zod_ap_ok {A B} (rf : ZodResult (A -> B)) (ra : ZodResult A) (b : B) :
  zod_ap rf ra = ZodOk b <-> exists f a, rf = ZodOk f /\ ra = ZodOk a /\ b = f a.
Proof.
  destruct rf, ra; simpl; split;
    try discriminate;
    try (intros (f & x & E1 & E2 & _); discriminate).
  - intros E; injection E as <-; eauto.
  - intros (f & x & E1 & E2 & ->); congruence.
Qed.

Lemma z_key_ok {A} (key : string) (p : Parser A) f (a : A) :
  z_key key p f = ZodOk a <-> p (field f key) = ZodOk a.
Proof. unfold z_key, field. apply at_path_ok. Qed.

Lemma z_string_ok (v : option JSON) (s : jsstring) :
  z_string v = ZodOk s <-> v = Some (JStr s).
Proof.
  unfold z_string. destruct v as [[]|]; split; try discriminate; congruence.
Qed.

Lemma z_number_ok (v : option JSON) (q : Q) :
  z_number v = ZodOk q <-> v = Some (JNum q).
Proof.
  unfold z_number. destruct v as [[]|]; split; try discriminate; congruence.
Qed.

Lemma z_optional_string_ok (v : option JSON) (o : option jsstring) :
  z_optional z_string v = ZodOk o
  <-> (v = None /\ o = None) \/ (exists s, v = Some (JStr s) /\ o = Some s).
Proof.
  unfold z_optional. destruct v as [j|].
  - rewrite zod_map_ok. split.
    + intros (s & E & ->). apply z_string_ok in E. right; eauto.
    + intros [[E _]|(s & E & ->)]; [discriminate|].
      exists s; split; [now apply z_string_ok|reflexivity].
  - split.
    + intros E; injection E as <-; left; auto.
    + intros [[_ ->]|(s & E & _)]; [reflexivity|discriminate].
Qed.

Lemma z_object_ok {A} (shape : list (jsstring * JSON) -> ZodResult A) v (a : A) :
  z_object shape v = ZodOk a <-> exists f, v = Some (JObj f) /\ shape f = ZodOk a.
Proof.
  unfold z_object. destruct v as [[]|]; split;
    try discriminate; try (intros (f & E & _); discriminate).
  - eauto.
  - intros (f & E & S); injection E as ->; exact S.
Qed.

Lemma z_elements_ok {A} (p : Parser A) (items : list JSON) :
  forall i l,
    z_elements p i items = ZodOk l
    <-> Forall2 (fun x a => p (Some x) = ZodOk a) items l.
Proof.
  induction items as [|x items IH]; intros i l; simpl.
  - split.
    + intros E; injection E as <-; constructor.
    + intros F; inversion F; reflexivity.
  - rewrite zod_ap_ok. split.
    + intros (f & tl & Ef & Etl & ->).
      apply zod_map_ok in Ef as (a & Ea & ->).
      apply at_path_ok in Ea. apply IH in Etl.
      constructor; assumption.
    + intros F; inversion F as [|? a ? tl Ha Htl]; subst.
      exists (cons a), tl. repeat split.
      * apply zod_map_ok. exists a; split; [now apply at_path_ok|reflexivity].
      * now apply IH.
Qed.

Lemma z_array_ok {A} (p : Parser A) v (l : list A) :
  z_array p v = ZodOk l
  <-> exists items, v = Some (JArr items)
        /\ Forall2 (fun x a => p (Some x) = ZodOk a) items l.
Proof.
  unfold z_array. destruct v as [[]|]; split;
    try discriminate; try (intros (f & E & _); discriminate).
  - intros E; eexists; split; [reflexivity|]. now apply z_elements_ok in E.
  - intros (it & E & F); injection E as ->. now apply z_elements_ok.
Qed.

Lemma reports_at_path {A} seg (r : ZodResult A) : reports r -> reports (at_path seg r).
Proof. destruct r as [|[|]]; simpl; auto. Qed.

Lemma reports_map {A B} (f : A -> B) (r : ZodResult A) : reports r -> reports (zod_map f r).
Proof. destruct r as [|[|]]; simpl; auto. Qed.

Lemma reports_ap {A B} (rf : ZodResult (A -> B)) (ra : ZodResult A) :
  reports rf -> reports ra -> reports (zod_ap rf ra).
Proof. destruct rf as [|[|]], ra as [|[|]]; simpl; auto. Qed.

Lemma reports_string v : reports (z_string v).
Proof. destruct v as [[]|]; simpl; auto. Qed.

Lemma reports_number v : reports (z_number v).
Proof. destruct v as [[]|]; simpl; auto. Qed.

Lemma reports_optional {A} (p : Parser A) v :
  (forall u, reports (p u)) -> reports (z_optional p v).
Proof. intros Hp. destruct v; simpl; [apply reports_map, Hp|exact I]. Qed.

Lemma reports_key {A} key (p : Parser A) f :
  (forall u, reports (p u)) -> reports (z_key key p f).
Proof. intros Hp. apply reports_at_path, Hp. Qed.

Lemma reports_object {A} (shape : list (jsstring * JSON) -> ZodResult A) v :
  (forall f, reports (shape f)) -> reports (z_object shape v).
Proof. intros Hs. destruct v as [[]|]; simpl; auto. Qed.

Lemma reports_elements {A} (p : Parser A) items :
  (forall u, reports (p u)) -> forall i, reports (z_elements p i items).
Proof.
  intros Hp. induction items; intros i; simpl; [exact I|].
  apply reports_ap; [apply reports_map, reports_at_path, Hp|apply IHitems].
Qed.

Lemma reports_array {A} (p : Parser A) v :
  (forall u, reports (p u)) -> reports (z_array p v).
Proof.
  intros Hp. destruct v as [[]|]; simpl; auto. now apply reports_elements.
Qed.

Lemma fails_at_path {A} seg (r : ZodResult A) path :
  fails_at r path -> fails_at (at_path seg r) (seg :: path).
Proof.
  intros (i & -> & Hin). exists (map (cons seg) i). split; [reflexivity|].
  now apply in_map.
Qed.

Lemma fails_at_map {A B} (f : A -> B) (r : ZodResult A) path :
  fails_at r path -> fails_at (zod_map f r) path.
Proof. intros (i & -> & Hin). exists i; auto. Qed.

Lemma fails_at_ap_l {A B} (rf : ZodResult (A -> B)) (ra : ZodResult A) path :
  fails_at rf path -> fails_at (zod_ap rf ra) path.
Proof.
  intros (i & -> & Hin). destruct ra as [a|j]; simpl.
  - exists i; auto.
  - exists (i ++ j); split; [reflexivity|apply in_or_app; auto].
Qed.

Lemma fails_at_ap_r {A B} (rf : ZodResult (A -> B)) (ra : ZodResult A) path :
  fails_at ra path -> fails_at (zod_ap rf ra) path.
Proof.
  intros (j & -> & Hin). destruct rf as [f|i]; simpl.
  - exists j; auto.
  - exists (i ++ j); split; [reflexivity|apply in_or_app; auto].
Qed.

End ZodFacts.
Import ZodFacts.

Ltac zod_inv :=
  repeat match goal with
  | H : zod_ap _ _ = ZodOk _ |- _ =>
      let f := fresh "f" in let a := fresh "a" in
      let Hf := fresh "Hf" in let Ha := fresh "Ha" in
      apply zod_ap_ok in H as (f & a & Hf & Ha & ->)
  | H : zod_map _ _ = ZodOk _ |- _ =>
      let a := fresh "a" in let Ha := fresh "Ha" in
      apply zod_map_ok in H as (a & Ha & ->)
  | H : z_key _ _ _ = ZodOk _ |- _ => apply z_key_ok in H
  | H : z_string _ = ZodOk _ |- _ => apply z_string_ok in H
  | H : z_number _ = ZodOk _ |- _ => apply z_number_ok in H
  end.

Lemma message_schema_ok (v : option JSON) (m : ChoiceMessage) :
  message_schema v = ZodOk m
  <-> exists f, v = Some (JObj f)
        /\ field f "role" = Some (JStr (cm_role m))
        /\ field f "content" = Some (JStr (cm_content m)).
Proof.
  unfold message_schema. rewrite z_object_ok. split.
  - intros (f & -> & E). zod_inv. exists f; auto.
  - intros (f & -> & Hr & Hc). exists f; split; [reflexivity|].
    unfold z_key. fold (field f "role"); fold (field f "content").
    rewrite Hr, Hc. destruct m; reflexivity.
Qed.

Lemma choice_schema_ok (v : option JSON) (c : Choice) :
  choice_schema v = ZodOk c
  <-> exists f, v = Some (JObj f)
        /\ field f "index" = Some (JNum (index c))
        /\ message_schema (field f "message") = ZodOk (message c)
        /\ ((field f "finish_reason" = None /\ finish_reason c = None)
            \/ exists s, field f "finish_reason" = Some (JStr s)
                         /\ finish_reason c = Some s).
Proof.
  unfold choice_schema. rewrite z_object_ok. split.
  - intros (f & -> & E). zod_inv.
    apply z_optional_string_ok in Ha.
    exists f; auto.
  - intros (f & -> & Hi & Hm & Hf). exists f; split; [reflexivity|].
    assert (Ef : z_key "finish_reason" (z_optional z_string) f = ZodOk (finish_reason c))
      by now apply z_key_ok, z_optional_string_ok.
    assert (Em : z_key "message" message_schema f = ZodOk (message c))
      by now apply z_key_ok.
    assert (Ei : z_key "index" z_number f = ZodOk (index c))
      by now apply z_key_ok, z_number_ok.
    rewrite Ef, Em, Ei. destruct c; reflexivity.
Qed.

Lemma usage_schema_ok (v : option JSON) (u : Usage) :
  usage_schema v = ZodOk u
  <-> exists f, v = Some (JObj f)
        /\ field f "prompt_tokens" = Some (JNum (prompt_tokens u))
        /\ field f "completion_tokens" = Some (JNum (completion_tokens u))
        /\ field f "total_tokens" = Some (JNum (total_tokens u)).
Proof.
  unfold usage_schema. rewrite z_object_ok. split.
  - intros (f & -> & E). zod_inv. exists f; auto.
  - intros (f & -> & Hp & Hc & Ht). exists f; split; [reflexivity|].
    unfold z_key.
    fold (field f "prompt_tokens"); fold (field f "completion_tokens");
      fold (field f "total_tokens").
    rewrite Hp, Hc, Ht. destruct u; reflexivity.
Qed.

(** What an accepted reply is: every field of the validated value is the
    field of the body, nothing is defaulted or guessed. *)
Lemma CompletionResponseSchema_ok (body : option JSON) (r : CompletionResponse) :
  CompletionResponseSchema body = ZodOk r
  <-> exists f, body = Some (JObj f)
        /\ field f "id" = Some (JStr (id r))
        /\ field f "object" = Some (JStr (object r))
        /\ field f "created" = Some (JNum (created r))
        /\ field f "model" = Some (JStr (model r))
        /\ (exists items, field f "choices" = Some (JArr items)
              /\ Forall2 (fun x c => choice_schema (Some x) = ZodOk c) items (choices r))
        /\ usage_schema (field f "usage") = ZodOk (usage r).
Proof.
  unfold CompletionResponseSchema. rewrite z_object_ok. split.
  - intros (f & -> & E). zod_inv.
    apply z_array_ok in Ha0.
    exists f; auto 10.
  - intros (f & -> & Hi & Ho & Hc & Hm & Hch & Hu). exists f; split; [reflexivity|].
    assert (E1 : z_key "id" z_string f = ZodOk (id r))
      by now apply z_key_ok, z_string_ok.
    assert (E2 : z_key "object" z_string f = ZodOk (object r))
      by now apply z_key_ok, z_string_ok.
    assert (E3 : z_key "created" z_number f = ZodOk (created r))
      by now apply z_key_ok, z_number_ok.
    assert (E4 : z_key "model" z_string f = ZodOk (model r))
      by now apply z_key_ok, z_string_ok.
    assert (E5 : z_key "choices" (z_array choice_schema) f = ZodOk (choices r))
      by now apply z_key_ok, z_array_ok.
    assert (E6 : z_key "usage" usage_schema f = ZodOk (usage r))
      by now apply z_key_ok.
    rewrite E1, E2, E3, E4, E5, E6. destruct r; reflexivity.
Qed.

Lemma message_accepts (v : option JSON) :
  (exists m, message_schema v = ZodOk m) <-> is_message v.
Proof.
  split.
  - intros (m & E). apply message_schema_ok in E as (f & -> & Hr & Hc).
    exists f; unfold is_text; eauto.
  - intros (f & -> & (r & Hr) & (c & Hc)).
    exists (mkChoiceMessage r c). apply message_schema_ok.
    exists f; cbn [cm_role cm_content]; auto.
Qed.

Lemma choice_accepts (v : option JSON) :
  (exists c, choice_schema v = ZodOk c) <-> is_choice v.
Proof.
  split.
  - intros (c & E). apply choice_schema_ok in E as (f & -> & Hi & Hm & Hf).
    exists f. split; [reflexivity|]. split; [eexists; eauto|].
    split; [apply message_accepts; eauto|].
    destruct Hf as [[Hf _]|(s & Hf & _)]; [left; auto|right; eexists; eauto].
  - intros (f & -> & (q & Hq) & Hm & Hf).
    apply message_accepts in Hm as (m & Hm).
    destruct Hf as [Hf|(s & Hf)].
    + exists (mkChoice q m None). apply choice_schema_ok.
      exists f; cbn [index message finish_reason]. repeat split; auto.
    + exists (mkChoice q m (Some s)). apply choice_schema_ok.
      exists f; cbn [index message finish_reason]. repeat split; auto.
      right; eauto.
Qed.

Lemma usage_accepts (v : option JSON) :
  (exists u, usage_schema v = ZodOk u) <-> is_usage v.
Proof.
  split.
  - intros (u & E). apply usage_schema_ok in E as (f & -> & Hp & Hc & Ht).
    exists f; unfold is_number; eauto 10.
  - intros (f & -> & (p & Hp) & (c & Hc) & (t & Ht)).
    exists (mkUsage p c t). apply usage_schema_ok.
    exists f; cbn [prompt_tokens completion_tokens total_tokens]; auto.
Qed.

Lemma choices_accept (items : list JSON) :
  (exists l, Forall2 (fun x c => choice_schema (Some x) = ZodOk c) items l)
  <-> Forall (fun c => is_choice (Some c)) items.
Proof.
  split.
  - intros (l & F). induction F; constructor; auto.
    apply choice_accepts; eauto.
  - induction 1 as [|x items Hx _ (l & IH)].
    + exists []; constructor.
    + apply choice_accepts in Hx as (c & Hc). exists (c :: l); constructor; auto.
Qed.

Lemma schema_accepts (body : option JSON) :
  (exists r, CompletionResponseSchema body = ZodOk r) <-> expected_shape body.
Proof.
  split.
  - intros (r & E).
    apply CompletionResponseSchema_ok in E as (f & -> & Hi & Ho & Hc & Hm & Hch & Hu).
    exists f. split; [reflexivity|]. unfold is_text, is_number.
    repeat split; eauto.
    + destruct Hch as (items & Hit & F). exists items; split; [assumption|].
      apply choices_accept; eauto.
    + apply usage_accepts; eauto.
  - intros (f & -> & (i & Hi) & (o & Ho) & (c & Hc) & (m & Hm) & (items & Hit & F) & Hu).
    apply choices_accept in F as (l & F). apply usage_accepts in Hu as (u & Hu).
    exists (mkCompletionResponse i o c m l u).
    apply CompletionResponseSchema_ok.
    exists f; cbn [id object created model choices usage]. repeat split; eauto.
Qed.

Lemma schema_reports (body : option JSON) : reports (CompletionResponseSchema body).
Proof.
  apply reports_object; intros f.
  repeat apply reports_ap; try apply reports_map;
    try (apply reports_key; intros u;
         first [ apply reports_string | apply reports_number ]).
  - apply reports_key; intros u. apply reports_array; intros v.
    apply reports_object; intros g.
    repeat apply reports_ap; try apply reports_map;
      try (apply reports_key; intros x;
           first [ apply reports_string | apply reports_number ]).
    + apply reports_key; intros x. apply reports_object; intros h.
      repeat apply reports_ap; try apply reports_map;
        apply reports_key; intros y; apply reports_string.
    + apply reports_key; intros x. apply reports_optional, reports_string.
  - apply reports_key; intros u. apply reports_object; intros g.
    repeat apply reports_ap; try apply reports_map;
      apply reports_key; intros x; apply reports_number.
Qed.

Lemma missing_total_tokens_reported (f u : list (jsstring * JSON)) :
  field f "usage" = Some (JObj u) ->
  field u "total_tokens" = None ->
  fails_at (CompletionResponseSchema (Some (JObj f)))
           [PKey (js "usage"); PKey (js "total_tokens")].
Proof.
  intros Hu Ht. unfold CompletionResponseSchema, z_object.
  apply fails_at_ap_r. unfold z_key at 1. apply fails_at_path.
  fold (field f "usage"). rewrite Hu. unfold usage_schema, z_object.
  apply fails_at_ap_r. unfold z_key at 1. apply fails_at_path.
  fold (field u "total_tokens"). rewrite Ht.
  exists [[]]. split; [reflexivity|left; reflexivity].
Qed.

Lemma parse_rejects (body : option JSON) :
  ~ expected_shape body ->
  exists issues,
    issues <> [] /\ CompletionResponseSchema_parse body = Throw (ZodError_ issues).
Proof.
  intros Hn. unfold CompletionResponseSchema_parse.
  pose proof (schema_reports body) as Hr.
  destruct (CompletionResponseSchema body) as [r|issues] eqn:E.
  - exfalso. apply Hn, schema_accepts. eauto.
  - exists issues. split; [|reflexivity].
    intros ->. exact Hr.
Qed.

Lemma formatResponse_empty_choices (r : CompletionResponse) :
  choices r = [] ->
  formatResponse r = Throw (Error_ (js "Invalid completion response")).
Proof. unfold formatResponse. intros ->. reflexivity. Qed.

(** X29. The validator accepts a reply body exactly when it has the expected
    shape; any other body, whichever field is missing or mistyped, makes
    [parse] throw (with at least one issue) and yields no value. A reply
    whose usage lacks [total_tokens] is rejected with an issue at that path.
    A reply of the expected shape whose [choices] is the empty sequence is
    accepted, and [formatResponse] then throws "Invalid completion
    response". *)
Theorem response_validation :
  (forall body,
     expected_shape body <-> exists r, CompletionResponseSchema_parse body = Ok r)
  /\ (forall body,
        ~ expected_shape body ->
        exists issues,
          issues <> [] /\ CompletionResponseSchema_parse body = Throw (ZodError_ issues))
  /\ (forall f u,
        field f "usage" = Some (JObj u) ->
        field u "total_tokens" = None ->
        exists issues,
          CompletionResponseSchema_parse (Some (JObj f)) = Throw (ZodError_ issues)
          /\ In [PKey (js "usage"); PKey (js "total_tokens")] issues)
  /\ (forall f,
        expected_shape (Some (JObj f)) ->
        field f "choices" = Some (JArr []) ->
        exists r,
          CompletionResponseSchema_parse (Some (JObj f)) = Ok r
          /\ choices r = []
          /\ formatResponse r = Throw (Error_ (js "Invalid completion response"))).
Proof.
  unfold CompletionResponseSchema_parse. repeat apply conj.
  - intros body. rewrite <- schema_accepts. split.
    + intros (r & ->). eauto.
    + intros (r & E). destruct (CompletionResponseSchema body) as [r'|i];
        [eauto|discriminate].
  - intros body Hn. apply (parse_rejects Hn).
  - intros f u Hu Ht.
    destruct (missing_total_tokens_reported f Hu Ht) as (issues & -> & Hin).
    eauto.
  - intros f Hs Hc. apply schema_accepts in Hs as (r & E).
    exists r. rewrite E. split; [reflexivity|].
    apply CompletionResponseSchema_ok in E
      as (f' & Ef & _ & _ & _ & _ & (items & Hit & F) & _).
    injection Ef as <-. rewrite Hc in Hit. injection Hit as <-.
    assert (Hch : choices r = []) by (inversion F; congruence).
    split; [exact Hch|].
    apply formatResponse_empty_choices, Hch.
Qed.

Lemma response_validation_witness :
  (exists issues,
     CompletionResponseSchema_parse (Some reply_without_total_tokens)
     = Throw (ZodError_ issues)
     /\ In [PKey (js "usage"); PKey (js "total_tokens")] issues)
  /\ (exists r,
        CompletionResponseSchema_parse (Some reply_without_choices) = Ok r
        /\ choices r = []
        /\ formatResponse r = Throw (Error_ (js "Invalid completion response"))).
Proof.
  destruct response_validation as (Hshape & _ & Hmissing & Hempty).
  split.
  - eapply Hmissing; reflexivity.
  - apply Hempty; [|reflexivity].
    apply Hshape. eexists. vm_compute. reflexivity.
Defined.

(** C4 fails on the code, on the chat tool. A reply of the expected shape
    with [choices: []] passes the validator. The code tool hands it to
    [formatResponse], whose guard answers "Invalid completion response"; the
    chat tool has no such guard and reads the content of the first choice
    at once, so its caller gets the text of the [TypeError] of that read, not
    the error of empty choices. *)
Theorem empty_choices_on_the_chat_tool :
  (exists r,
     CompletionResponseSchema_parse (Some reply_without_choices) = Ok r
     /\ choices r = []
     /\ fst (@chatCompletion example_runtime example_client
               (replies_with reply_without_choices)
               [ {| role := js "user"; content := js "hello" |} ]
               {| opt_model := Some (js "mistral-large-latest");
                  opt_temperature := None; opt_top_p := Some (9 # 10)%Q;
                  opt_max_tokens := None; opt_stop := None |}
               {| now := 0; dispatched := [] |}) = Ok r)
  /\ fst (@handle_chat example_runtime example_node example_client
            (replies_with reply_without_choices) (Some example_chat_args) fresh_env)
     = {| tr_text := js "Error: Cannot read properties of undefined (reading 'message')";
          tr_isError := true |}
  /\ fst (@handle_code_completion example_runtime example_node example_client
            (replies_with reply_without_choices) fs_ok (Some example_fix_args)
            fresh_env)
     = {| tr_text := js "Error: Invalid completion response"; tr_isError := true |}
  /\ (forall node : NodeRuntime,
        fst (@handle_chat example_runtime node example_client
               (replies_with reply_without_choices) (Some example_chat_args) fresh_env)
        = {| tr_text := js "Error: " ++ @read_of_undefined_message node;
             tr_isError := true |}).
Proof.
  split; [|split; [|split]].
  - eexists. split; [vm_compute; reflexivity|]. split; reflexivity.
  - reflexivity.
  - reflexivity.
  - intros node. reflexivity.
Qed.

(** X27. A reply that has not the expected shape leaves the two operations
    differently: [chatCompletion] rethrows the validation error as it is,
    [fimCompletion] throws a plain error "Unexpected error during FIM
    completion: " followed by the message of the validation error. *)
Lemma malformed_reply_propagates `{JsRuntime} (this : MistralAPI) (net : Network)
    (w : World) (r : AxiosResponse) (messages : list Message) (options : ChatOptions)
    (prompt : jsstring) (foptions : FimOptions) :
  ~ expected_shape (data r) ->
  snd (net w (chat_request this messages options)) = Resolved r ->
  snd (net w (fim_request this prompt foptions)) = Resolved r ->
  exists issues,
    issues <> []
    /\ fst (chatCompletion this net messages options w) = Throw (ZodError_ issues)
    /\ fst (fimCompletion this net prompt foptions w)
       = Throw (Error_ (js "Unexpected error during FIM completion: "
                          ++ ZodError_message issues)).
Proof.
  intros Hn Hc Hf.
  destruct (parse_rejects Hn) as (issues & Hne & E).
  exists issues. split; [assumption|].
  rewrite chatCompletion_run, fimCompletion_run; cbv zeta.
  rewrite Hc, Hf, E. split; reflexivity.
Qed.

(** ** Code extractor *)

Module RegexFacts.

Lemma strip_prefix_app (p r : jsstring) : strip_prefix p (p ++ r) = Some r.
Proof.
  induction p as [|x p IH]; simpl; [reflexivity|].
  now rewrite N.eqb_refl.
Qed.

Lemma strip_prefix_Some (p s r : jsstring) :
  strip_prefix p s = Some r <-> s = p ++ r.
Proof.
  split.
  - revert s; induction p as [|x p IH]; intros s; simpl.
    + congruence.
    + destruct s as [|y s]; [discriminate|].
      destruct (N.eqb_spec x y); [|discriminate].
      intros E; apply IH in E; subst; reflexivity.
  - intros ->; apply strip_prefix_app.
Qed.

Lemma strip_fence_nil : strip_prefix FENCE [] = None.
Proof. reflexivity. Qed.

Lemma has_fence_cons (c : code_unit) (s : jsstring) :
  has_fence s -> has_fence (c :: s).
Proof. intros (p & q & ->). exists (c :: p), q. reflexivity. Qed.

Lemma has_fence_cons_inv (c : code_unit) (s : jsstring) :
  has_fence (c :: s) -> strip_prefix FENCE (c :: s) = None -> has_fence s.
Proof.
  intros (p & q & E) Hn. destruct p as [|x p].
  - apply (proj2 (strip_prefix_Some FENCE (c :: s) q)) in E. congruence.
  - injection E as _ ->. exists p, q. reflexivity.
Qed.

Lemma skip_word_tag (tag rest : jsstring) :
  forallb is_word_char tag = true ->
  skip_word (tag ++ LF ++ rest) = LF ++ rest.
Proof.
  induction tag as [|c tag IH]; simpl; [reflexivity|].
  intros H; apply andb_true_iff in H as [Hc Ht].
  rewrite Hc. auto.
Qed.

Lemma skip_word_split (s : jsstring) :
  exists tag, s = tag ++ skip_word s /\ forallb is_word_char tag = true.
Proof.
  induction s as [|c s (tag & E & Ht)]; simpl.
  - exists []; split; reflexivity.
  - destruct (is_word_char c) eqn:Hc.
    + exists (c :: tag); simpl. rewrite Hc, Ht. split; [congruence|reflexivity].
    + exists []; split; reflexivity.
Qed.

Lemma split_at_fence_Some (s inner rest : jsstring) :
  split_at_fence s = Some (inner, rest)
  <-> s = inner ++ FENCE ++ rest /\ ends_at_next_fence inner rest.
Proof.
  split.
  - revert inner rest. induction s as [|c s IH]; intros inner rest.
    + simpl. discriminate.
    + cbn [split_at_fence].
      destruct (strip_prefix FENCE (c :: s)) as [r|] eqn:Hp.
      * intros E; injection E as <- <-.
        apply strip_prefix_Some in Hp. split; [exact Hp|].
        intros p q _. simpl. lia.
      * destruct (split_at_fence s) as [[i r]|] eqn:Hs; [|discriminate].
        intros E; injection E as <- <-.
        destruct (IH i r eq_refl) as [-> Hend]. split; [reflexivity|].
        intros p q E. destruct p as [|x p].
        -- apply (proj2 (strip_prefix_Some FENCE _ q)) in E.
           change ((c :: i) ++ FENCE ++ r) with (c :: (i ++ FENCE ++ r)) in E.
           congruence.
        -- injection E as _ E. apply Hend in E. simpl. lia.
  - revert s rest. induction inner as [|c inner IH]; intros s rest [-> Hend].
    + simpl app. destruct rest; reflexivity.
    + assert (Hp : strip_prefix FENCE ((c :: inner) ++ FENCE ++ rest) = None).
      { destruct (strip_prefix FENCE ((c :: inner) ++ FENCE ++ rest)) as [q|] eqn:Hp;
          [|reflexivity].
        apply strip_prefix_Some in Hp. specialize (Hend [] q Hp). simpl in Hend. lia. }
      change ((c :: inner) ++ FENCE ++ rest) with (c :: (inner ++ FENCE ++ rest)) in *.
      cbn [split_at_fence]. rewrite Hp.
      rewrite (IH (inner ++ FENCE ++ rest) rest); [reflexivity|].
      split; [reflexivity|].
      intros p q E.
      assert (E' : (c :: inner) ++ FENCE ++ rest = (c :: p) ++ FENCE ++ q).
      { change (c :: (inner ++ FENCE ++ rest) = c :: (p ++ FENCE ++ q)).
        now rewrite E. }
      apply Hend in E'. simpl in E'. lia.
Qed.

Lemma split_at_fence_None (s : jsstring) :
  split_at_fence s = None <-> ~ has_fence s.
Proof.
  split.
  - induction s as [|c s IH].
    + intros _ (p & q & E). destruct p; discriminate E.
    + cbn [split_at_fence].
      destruct (strip_prefix FENCE (c :: s)) eqn:Hp; [discriminate|].
      destruct (split_at_fence s) as [[i r]|]; [discriminate|].
      intros _ Hf. apply IH; [reflexivity|]. eapply has_fence_cons_inv; eauto.
  - intros Hn. destruct (split_at_fence s) as [[i r]|] eqn:E; [|reflexivity].
    apply split_at_fence_Some in E as [-> _]. exfalso. apply Hn. exists i, r. reflexivity.
Qed.

(** What one match of the pattern is. *)
Lemma match_at_Some (s inner rest : jsstring) :
  match_at s = Some (inner, rest)
  <-> exists tag,
        s = FENCE ++ tag ++ LF ++ inner ++ FENCE ++ rest
        /\ forallb is_word_char tag = true
        /\ ends_at_next_fence inner rest.
Proof.
  unfold match_at. split.
  - destruct (strip_prefix FENCE s) as [s1|] eqn:Hp; [|discriminate].
    apply strip_prefix_Some in Hp. subst s.
    destruct (skip_word_split s1) as (tag & E & Ht).
    destruct (skip_word s1) as [|c s2]; [discriminate|].
    destruct (N.eqb_spec c 10); [subst c|discriminate].
    intros Hs. apply split_at_fence_Some in Hs as [-> Hend].
    exists tag. rewrite E. repeat split; assumption.
  - intros (tag & -> & Ht & Hend).
    rewrite strip_prefix_app, (@skip_word_tag tag _ Ht).
    cbn [LF app]. rewrite N.eqb_refl.
    apply split_at_fence_Some. split; [reflexivity|assumption].
Qed.

Lemma match_at_None (s : jsstring) :
  match_at s = None <-> ~ opens_block s.
Proof.
  split.
  - intros Hn (tag & inner & rest & -> & Ht).
    unfold match_at in Hn.
    rewrite strip_prefix_app, (@skip_word_tag tag _ Ht) in Hn.
    cbn [LF app] in Hn. rewrite N.eqb_refl in Hn.
    apply split_at_fence_None in Hn. apply Hn. exists inner, rest. reflexivity.
  - intros Hn. destruct (match_at s) as [[inner rest]|] eqn:E; [|reflexivity].
    apply match_at_Some in E as (tag & -> & Ht & _).
    exfalso. apply Hn. exists tag, inner, rest. split; [reflexivity|assumption].
Qed.

Lemma match_at_shorter (s inner rest : jsstring) :
  match_at s = Some (inner, rest) -> (List.length rest < List.length s)%nat.
Proof.
  intros E. apply match_at_Some in E as (tag & -> & _ & _).
  rewrite !length_app. simpl. lia.
Qed.

(** The counter of [matchAll_from] never runs out. *)
Lemma matchAll_from_enough (n m : nat) (s : jsstring) :
  (List.length s < n)%nat -> (List.length s < m)%nat ->
  matchAll_from n s = matchAll_from m s.
Proof.
  revert m s. induction n as [|n IH]; intros m s Hn Hm; [lia|].
  destruct m as [|m]; [lia|]. simpl.
  destruct (match_at s) as [[inner rest]|] eqn:E.
  - apply match_at_shorter in E. f_equal. apply IH; lia.
  - destruct s as [|c s]; [reflexivity|]. simpl in Hn, Hm. apply IH; lia.
Qed.

(** The search, without the counter. *)
Lemma matchAll_eq (s : jsstring) :
  matchAll s
  = match match_at s with
    | Some (inner, rest) => inner :: matchAll rest
    | None =>
        match s with
        | [] => []
        | _ :: s' => matchAll s'
        end
    end.
Proof.
  unfold matchAll at 1. cbn [matchAll_from].
  destruct (match_at s) as [[inner rest]|] eqn:E.
  - apply match_at_shorter in E. f_equal. apply matchAll_from_enough; lia.
  - destruct s as [|c s]; [reflexivity|]. apply matchAll_from_enough; simpl; lia.
Qed.

End RegexFacts.
Import RegexFacts.

(** [matchAll] finds the fenced blocks, and nothing else does. *)
Lemma matchAll_FencedBlocks (s : jsstring) : FencedBlocks s (matchAll s).
Proof.
  remember (List.length s) as n eqn:Hn.
  revert s Hn. induction n as [n IH] using lt_wf_ind. intros s ->.
  rewrite matchAll_eq.
  destruct (match_at s) as [[inner rest]|] eqn:E.
  - pose proof (match_at_shorter _ E) as Hlt.
    apply match_at_Some in E as (tag & -> & Ht & Hend).
    apply FB_block; [assumption|assumption|].
    eapply IH; [exact Hlt|reflexivity].
  - destruct s as [|c s]; [constructor|].
    apply FB_prose; [now apply match_at_None|].
    eapply IH; [|reflexivity]. simpl; lia.
Qed.

Lemma FencedBlocks_unique (s : jsstring) (bs : list jsstring) :
  FencedBlocks s bs -> bs = matchAll s.
Proof.
  induction 1 as [|c s bs Hn _ IH|tag inner rest bs Ht Hend _ IH].
  - reflexivity.
  - rewrite matchAll_eq. apply match_at_None in Hn. rewrite Hn. exact IH.
  - rewrite matchAll_eq.
    assert (E : match_at (FENCE ++ tag ++ LF ++ inner ++ FENCE ++ rest)
                = Some (inner, rest)).
    { apply match_at_Some. exists tag. repeat split; assumption. }
    rewrite E. now f_equal.
Qed.

Lemma opens_block_has_fence (s : jsstring) : opens_block s -> has_fence s.
Proof. intros (tag & inner & rest & -> & _). exists [], (tag ++ LF ++ inner ++ FENCE ++ rest). reflexivity. Qed.

(** A text without a fence has no match. *)
Lemma matchAll_no_fence (s : jsstring) : ~ has_fence s -> matchAll s = [].
Proof.
  intros Hn. symmetry. apply FencedBlocks_unique.
  induction s as [|c s IH]; [constructor|].
  apply FB_prose.
  - intros Ho. apply Hn, opens_block_has_fence, Ho.
  - apply IH. intros Hf. apply Hn, has_fence_cons, Hf.
Qed.

Lemma extractCodeBlocks_no_fence (s : jsstring) :
  ~ has_fence s -> extractCodeBlocks s = s.
Proof.
  intros Hn. unfold extractCodeBlocks. now rewrite (matchAll_no_fence Hn).
Qed.

(** ** [trim] *)

Lemma trimStart_split (s : jsstring) :
  exists l,
    s = l ++ trimStart s
    /\ forallb is_js_space l = true
    /\ (forall c t, trimStart s = c :: t -> is_js_space c = false).
Proof.
  induction s as [|c s (l & E & Hl & Hh)]; simpl.
  - exists []. repeat split. discriminate.
  - destruct (is_js_space c) eqn:Hc.
    + exists (c :: l). simpl. rewrite Hc, Hl. repeat split; [congruence|exact Hh].
    + exists []. repeat split. intros c' t E'; injection E' as <- _. exact Hc.
Qed.

Lemma forallb_rev_true {A} (f : A -> bool) (l : list A) :
  forallb f l = true -> forallb f (rev l) = true.
Proof.
  rewrite !forallb_forall. intros H x Hx. apply H, in_rev, Hx.
Qed.

(** [trim s] is [s] without the white space at its two ends. *)
Lemma trim_spec (s : jsstring) :
  exists l r,
    s = l ++ trim s ++ r
    /\ forallb is_js_space l = true
    /\ forallb is_js_space r = true
    /\ (forall c t, trim s = c :: t -> is_js_space c = false)
    /\ (forall t c, trim s = t ++ [c] -> is_js_space c = false).
Proof.
  destruct (trimStart_split s) as (l & El & Hl & Hhead).
  destruct (trimStart_split (rev (trimStart s))) as (r & Er & Hr & Hlast).
  assert (Et : trimStart s = trim s ++ rev r).
  { unfold trim, trimEnd. rewrite <- rev_app_distr, <- Er. symmetry; apply rev_involutive. }
  exists l, (rev r). repeat split.
  - rewrite <- Et. exact El.
  - exact Hl.
  - apply forallb_rev_true, Hr.
  - intros c t E. apply (Hhead c (t ++ rev r)). rewrite Et, E. reflexivity.
  - intros t c E. apply (Hlast c (rev t)).
    assert (Erev : rev (trim s) = trimStart (rev (trimStart s))).
    { unfold trim, trimEnd. apply rev_involutive. }
    rewrite <- Erev, E, rev_app_distr. reflexivity.
Qed.

(** The specification's wording of the extractor agrees with its two
    examples. *)
Example extractCodeBlocks_spec_examples :
  extractCodeBlocks_spec two_blocks_text = two_blocks_code
  /\ extractCodeBlocks_spec (js "plain text") = js "plain text".
Proof. split; reflexivity. Qed.

(** C8 fails on the code. The pattern takes a language tag of word characters
    only, with the line feed at once after it. A reply that is one block
    tagged [c++] has a fenced code block, and the extractor finds none: it
    returns the reply as it is, fences included, where the specification
    gives the code of the block. On a reply with a block tagged [c++], a
    line of prose and a block tagged [bash], it takes the closing fence of
    the first block for an opening one and returns the prose between the
    blocks, where the specification gives the code of the two blocks. *)
Theorem non_word_tag_blocks_are_missed :
  extractCodeBlocks cpp_block_text = cpp_block_text
  /\ extractCodeBlocks_spec cpp_block_text = js "int x;"
  /\ extractCodeBlocks cpp_block_text <> extractCodeBlocks_spec cpp_block_text
  /\ extractCodeBlocks cpp_and_bash_text = js "Run it:"
  /\ extractCodeBlocks_spec cpp_and_bash_text
     = js "int main(){}" ++ LF ++ LF ++ js "make"
  /\ extractCodeBlocks cpp_and_bash_text <> extractCodeBlocks_spec cpp_and_bash_text.
Proof.
  repeat apply conj; try reflexivity.
  - intros E. vm_compute in E. discriminate E.
  - intros E. vm_compute in E. discriminate E.
Qed.

(** X30. The extractor finds the blocks of a text that its pattern delimits,
    in document order (a fence, a tag of word characters and a line feed at
    once after it, up to the next fence; each search resumes after the block
    before). With one block or more it returns their trimmed contents joined
    by a blank line, and nothing of the text outside them; with none it
    returns the text as it is. On the two examples of the specification it
    returns "code1\n\ncode2" and "plain text". [formatResponse] applies it to
    the content of the first choice. *)
Theorem code_extraction :
  (forall text,
     exists blocks,
       FencedBlocks text blocks
       /\ (forall blocks', FencedBlocks text blocks' -> blocks' = blocks)
       /\ extractCodeBlocks text
          = match blocks with
            | [] => text
            | _ :: _ => join (LF ++ LF) (map trim blocks)
            end)
  /\ (forall s,
        exists l r,
          s = l ++ trim s ++ r
          /\ forallb is_js_space l = true
          /\ forallb is_js_space r = true
          /\ (forall c t, trim s = c :: t -> is_js_space c = false)
          /\ (forall t c, trim s = t ++ [c] -> is_js_space c = false))
  /\ extractCodeBlocks two_blocks_text = two_blocks_code
  /\ extractCodeBlocks (js "plain text") = js "plain text"
  /\ (forall completion first others,
        choices completion = first :: others ->
        formatResponse completion
        = Ok (extractCodeBlocks (cm_content (message first)))).
Proof.
  repeat apply conj.
  - intros text. exists (matchAll text). split; [apply matchAll_FencedBlocks|].
    split.
    + intros bs Hbs. apply FencedBlocks_unique, Hbs.
    + unfold extractCodeBlocks. destruct (matchAll text); reflexivity.
  - apply trim_spec.
  - vm_compute. reflexivity.
  - vm_compute. reflexivity.
  - intros completion first others E. unfold formatResponse. rewrite E. reflexivity.
Qed.

Lemma code_extraction_witness :
  FencedBlocks two_blocks_text [js "code1" ++ LF; js "code2" ++ LF]
  /\ extractCodeBlocks two_blocks_text
     = join (LF ++ LF) (map trim [js "code1" ++ LF; js "code2" ++ LF]).
Proof.
  destruct code_extraction as (Hblocks & _).
  destruct (Hblocks two_blocks_text) as (blocks & HF & Huniq & Hex).
  assert (E : [js "code1" ++ LF; js "code2" ++ LF] = blocks).
  { apply Huniq.
    change [js "code1" ++ LF; js "code2" ++ LF] with (matchAll two_blocks_text).
    apply matchAll_FencedBlocks. }
  rewrite E. split; [exact HF|].
  rewrite Hex. rewrite <- E. reflexivity.
Defined.

(** C9. Where the result of an extraction contains no fence, extracting
    again returns it unchanged. *)
Theorem extraction_idempotent (text : jsstring) :
  ~ has_fence (extractCodeBlocks text) ->
  extractCodeBlocks (extractCodeBlocks text) = extractCodeBlocks text.
Proof.
  intros Hn. apply extractCodeBlocks_no_fence, Hn.
Qed.

Lemma extraction_idempotent_witness :
  extractCodeBlocks (extractCodeBlocks two_blocks_text)
  = extractCodeBlocks two_blocks_text.
Proof.
  apply (extraction_idempotent two_blocks_text).
  apply split_at_fence_None. reflexivity.
Defined.

(** The hypothesis of C9 holds whenever a block was found: the code of a
    block contains no fence, and neither trimming nor joining with blank
    lines makes one. So the extractor is idempotent on every text. *)

Lemma has_fence_nil : ~ has_fence [].
Proof. intros (p & q & E). destruct p; discriminate E. Qed.

Lemma has_fence_middle (l s r : jsstring) : has_fence s -> has_fence (l ++ s ++ r).
Proof.
  intros (p & q & ->). exists (l ++ p), (q ++ r).
  repeat rewrite <- app_assoc. reflexivity.
Qed.

Lemma block_has_no_fence (inner rest : jsstring) :
  ends_at_next_fence inner rest -> ~ has_fence inner.
Proof.
  intros Hend (p & q & ->).
  specialize (Hend p (q ++ FENCE ++ rest)).
  repeat rewrite <- app_assoc in Hend. specialize (Hend eq_refl).
  rewrite !length_app in Hend. simpl in Hend. lia.
Qed.

Lemma has_fence_across (a b : jsstring) (c : code_unit) :
  c <> 96%N -> has_fence (a ++ c :: b) -> has_fence a \/ has_fence b.
Proof.
  intros Hc. induction a as [|y a IH]; intros (p & q & E).
  - destruct p as [|x p].
    + injection E as E _. congruence.
    + injection E as _ ->. right. exists p, q. reflexivity.
  - destruct p as [|x p].
    + destruct a as [|z1 [|z2 a]].
      * injection E as _ E _. congruence.
      * injection E as _ _ E _. congruence.
      * injection E as -> -> -> _. left. exists [], a. reflexivity.
    + injection E as _ E.
      destruct IH as [Ha|Hb]; [exists p, q; exact E| |right; exact Hb].
      left. apply has_fence_cons, Ha.
Qed.

Lemma join_no_fence (parts : list jsstring) :
  Forall (fun p => ~ has_fence p) parts -> ~ has_fence (join (LF ++ LF) parts).
Proof.
  induction 1 as [|p parts Hp _ IH]; [apply has_fence_nil|].
  destruct parts as [|p' parts]; [exact Hp|].
  change (join (LF ++ LF) (p :: p' :: parts))
    with (p ++ 10%N :: ([] ++ 10%N :: join (LF ++ LF) (p' :: parts))).
  intros Hf.
  apply has_fence_across in Hf as [Hf|Hf]; [auto| |discriminate].
  apply has_fence_across in Hf as [Hf|Hf]; [|auto|discriminate].
  exact (has_fence_nil Hf).
Qed.

Lemma FencedBlocks_no_fence (s : jsstring) (bs : list jsstring) :
  FencedBlocks s bs -> Forall (fun b => ~ has_fence b) bs.
Proof.
  induction 1 as [|c s bs _ _ IH|tag inner rest bs _ Hend _ IH]; auto.
  constructor; [eapply block_has_no_fence; eauto|assumption].
Qed.

Lemma trim_no_fence (s : jsstring) : ~ has_fence s -> ~ has_fence (trim s).
Proof.
  intros Hn Hf. destruct (trim_spec s) as (l & r & E & _).
  apply Hn. rewrite E. apply has_fence_middle, Hf.
Qed.

Corollary extraction_result_has_no_fence (text : jsstring) :
  matchAll text <> [] -> ~ has_fence (extractCodeBlocks text).
Proof.
  intros Hne. unfold extractCodeBlocks.
  pose proof (FencedBlocks_no_fence (matchAll_FencedBlocks text)) as Hall.
  destruct (matchAll text) as [|b bs] eqn:E; [congruence|].
  apply join_no_fence.
  apply Forall_forall. intros x Hx. apply in_map_iff in Hx as (y & <- & Hy).
  apply trim_no_fence. rewrite Forall_forall in Hall. apply Hall, Hy.
Qed.

Corollary extraction_idempotent_everywhere (text : jsstring) :
  extractCodeBlocks (extractCodeBlocks text) = extractCodeBlocks text.
Proof.
  destruct (matchAll text) as [|b bs] eqn:E.
  - assert (Et : extractCodeBlocks text = text)
      by (unfold extractCodeBlocks; now rewrite E).
    now rewrite !Et.
  - apply extractCodeBlocks_no_fence, extraction_result_has_no_fence.
    rewrite E. discriminate.
Qed.

(** The tag of an opening fence is made of word characters only and the line
    break follows it at once: a fence tagged [c++] opens no block, and the
    text comes back as it is. *)
Remark non_word_tag_opens_no_block :
  let text := FENCE ++ js "c++" ++ LF ++ js "int x;" ++ LF ++ FENCE in
  matchAll text = [] /\ extractCodeBlocks text = text.
Proof. split; reflexivity. Qed.

(* ================================================================== *)
(** * Further properties of the client *)
(* ================================================================== *)

(** ** Construction *)

Lemma trimStart_blank (s : jsstring) :
  forallb is_js_space s = true -> trimStart s = [].
Proof.
  induction s as [|c s IH]; simpl; [reflexivity|].
  intros H; apply andb_true_iff in H as [Hc Hs]. rewrite Hc. auto.
Qed.

Lemma trim_blank_iff (s : jsstring) :
  trim s = [] <-> forallb is_js_space s = true.
Proof.
  split.
  - intros E. destruct (trim_spec s) as (l & r & Es & Hl & Hr & _).
    rewrite E in Es. rewrite Es. simpl. rewrite forallb_app, Hl, Hr. reflexivity.
  - intros Hb. unfold trim, trimEnd. rewrite (trimStart_blank _ Hb). reflexivity.
Qed.

Lemma new_MistralAPI_cases (o : nat) (key : jsstring) :
  (forallb is_js_space key = true
   /\ new_MistralAPI o key = Throw (Error_ (js "API key cannot be empty")))
  \/ (forallb is_js_space key = false
      /\ new_MistralAPI o key
         = Ok {| oid := o;
                 apiKey := trim key;
                 codestralClient := axios_create CODESTRAL_API_BASE (trim key);
                 mistralClient := axios_create MISTRAL_API_BASE (trim key);
                 lastRequestTime := 0;
                 minRequestInterval := 100 |}).
Proof.
  unfold new_MistralAPI.
  destruct (forallb is_js_space key) eqn:Hb.
  - left. split; [reflexivity|].
    apply trim_blank_iff in Hb. rewrite Hb. simpl.
    now rewrite orb_true_r.
  - right. split; [reflexivity|].
    destruct key as [|c key]; [discriminate Hb|].
    destruct (trim (c :: key)) as [|x t] eqn:Et.
    + apply trim_blank_iff in Et. congruence.
    + reflexivity.
Qed.

(** X1. The constructor throws "API key cannot be empty" exactly for the
    keys made of white space only (the empty key among them). *)
Theorem constructor_rejects_exactly_blank_keys (o : nat) (key : jsstring) :
  new_MistralAPI o key = Throw (Error_ (js "API key cannot be empty"))
  <-> forallb is_js_space key = true.
Proof.
  destruct (new_MistralAPI_cases o key) as [[Hb E]|[Hb E]]; rewrite E, Hb; split;
    try reflexivity; discriminate.
Qed.

(** X2. A constructed client keeps the key without the white space around it:
    the stored key is not empty, neither starts nor ends with white space, and
    both upstream connections authenticate with "Bearer <stored key>", each on
    its own base address, with a timeout of 30 seconds. *)
Theorem constructor_keeps_trimmed_key (o : nat) (key : jsstring) (this : MistralAPI) :
  new_MistralAPI o key = Ok this ->
  (exists l r,
     key = l ++ apiKey this ++ r
     /\ forallb is_js_space l = true
     /\ forallb is_js_space r = true)
  /\ apiKey this <> []
  /\ (forall c t, apiKey this = c :: t -> is_js_space c = false)
  /\ (forall t c, apiKey this = t ++ [c] -> is_js_space c = false)
  /\ hdr_Authorization (codestralClient this) = js "Bearer " ++ apiKey this
  /\ hdr_Authorization (mistralClient this) = js "Bearer " ++ apiKey this
  /\ baseURL (codestralClient this) = js "https://codestral.mistral.ai/v1"
  /\ baseURL (mistralClient this) = js "https://api.mistral.com/v1"
  /\ timeout (codestralClient this) = 30000
  /\ timeout (mistralClient this) = 30000.
Proof.
  intros E.
  destruct (new_MistralAPI_cases o key) as [[_ E']|[Hb E']]; rewrite E' in E;
    [discriminate|].
  injection E as <-. cbn [apiKey codestralClient mistralClient].
  destruct (trim_spec key) as (l & r & Es & Hl & Hr & Hhead & Hlast).
  repeat apply conj; try reflexivity; try assumption.
  - exists l, r. auto.
  - intros Et. apply trim_blank_iff in Et. congruence.
Qed.

Lemma constructor_keeps_trimmed_key_witness :
  exists this,
    new_MistralAPI 0 (js "  sk-123 ") = Ok this
    /\ apiKey this = js "sk-123"
    /\ hdr_Authorization (codestralClient this) = js "Bearer " ++ apiKey this.
Proof.
  eexists. split; [vm_compute; reflexivity|].
  split; [reflexivity|].
  eapply (@constructor_keeps_trimmed_key 0 (js "  sk-123 ")).
  vm_compute; reflexivity.
Defined.

Lemma getClient_constructed (o : nat) (key : jsstring) (this : MistralAPI)
    (m : MistralModel) :
  new_MistralAPI o key = Ok this ->
  getClient this m
  = if jseqb m (MISTRAL_MODELS CODESTRAL) || jseqb m (MISTRAL_MODELS CODESTRAL_MAMBA)
    then axios_create CODESTRAL_API_BASE (trim key)
    else axios_create MISTRAL_API_BASE (trim key).
Proof.
  intros E.
  destruct (new_MistralAPI_cases o key) as [[_ E']|[_ E']]; rewrite E' in E;
    [discriminate|].
  injection E as <-. unfold getClient, getApiBase.
  destruct (jseqb m (MISTRAL_MODELS CODESTRAL) || jseqb m (MISTRAL_MODELS CODESTRAL_MAMBA));
    reflexivity.
Qed.

(** X3. On a constructed client, the connection used for a model is the one
    whose base address the router gives for that model, for every model
    string. *)
Theorem getClient_follows_router (o : nat) (key : jsstring) (this : MistralAPI)
    (m : MistralModel) :
  new_MistralAPI o key = Ok this ->
  baseURL (getClient this m) = getApiBase m.
Proof.
  intros E. rewrite (@getClient_constructed o key this m E). unfold getApiBase.
  destruct (jseqb m (MISTRAL_MODELS CODESTRAL) || jseqb m (MISTRAL_MODELS CODESTRAL_MAMBA));
    reflexivity.
Qed.

Lemma getClient_follows_router_witness :
  baseURL (getClient example_client (js "ministral-8b-latest"))
  = getApiBase (js "ministral-8b-latest").
Proof.
  apply (@getClient_follows_router 0 (js "key") example_client (js "ministral-8b-latest")).
  vm_compute; reflexivity.
Defined.

(** ** The two operations *)

(** X4. Each operation returns a value exactly when the upstream resolved the
    request with a body the validator accepts, and the value returned is the
    validated body. *)
Theorem operations_return_validated_body `{JsRuntime} (this : MistralAPI) (net : Network)
    (w : World) (messages : list Message) (options : ChatOptions)
    (prompt : jsstring) (foptions : FimOptions) (v : CompletionResponse) :
  (fst (chatCompletion this net messages options w) = Ok v
   <-> exists r, snd (net w (chat_request this messages options)) = Resolved r
                 /\ CompletionResponseSchema (data r) = ZodOk v)
  /\ (fst (fimCompletion this net prompt foptions w) = Ok v
      <-> exists r, snd (net w (fim_request this prompt foptions)) = Resolved r
                    /\ CompletionResponseSchema (data r) = ZodOk v).
Proof.
  rewrite chatCompletion_run, fimCompletion_run; cbv zeta.
  unfold CompletionResponseSchema_parse. split.
  - destruct (snd (net w (chat_request this messages options))) as [r|e].
    + destruct (CompletionResponseSchema (data r)) as [v'|i] eqn:E; cbn [fst]; split.
      * intros Ev; injection Ev as <-. eauto.
      * intros (r' & Er & Ev). injection Er as <-. congruence.
      * discriminate.
      * intros (r' & Er & Ev). injection Er as <-. congruence.
    + cbn [fst]. split; [discriminate|]. intros (r' & Er & _); discriminate.
  - destruct (snd (net w (fim_request this prompt foptions))) as [r|e].
    + destruct (CompletionResponseSchema (data r)) as [v'|i] eqn:E; cbn [fst]; split.
      * intros Ev; injection Ev as <-. eauto.
      * intros (r' & Er & Ev). injection Er as <-. congruence.
      * discriminate.
      * intros (r' & Er & Ev). injection Er as <-. congruence.
    + cbn [fst]. split; [discriminate|]. intros (r' & Er & _); discriminate.
Qed.

(** X5. [chatCompletion] never lets an [AxiosError] out: what it throws is a
    plain [Error] or a validation error. *)
Theorem chatCompletion_throws_no_axios_error `{JsRuntime} (this : MistralAPI)
    (net : Network) (w : World) (messages : list Message) (options : ChatOptions)
    (e : Exn) :
  fst (chatCompletion this net messages options w) = Throw e ->
  (exists m, e = Error_ m) \/ (exists issues, e = ZodError_ issues).
Proof.
  rewrite chatCompletion_run; cbv zeta.
  destruct (snd (net w _)) as [r|x].
  - unfold CompletionResponseSchema_parse.
    destruct (CompletionResponseSchema (data r)) as [v|i]; cbn [fst]; [discriminate|].
    intros E; injection E as <-. cbn. eauto.
  - cbn [fst]. intros E; injection E as <-.
    destruct x as [a|m|i]; cbn.
    + destruct (switch_status (response_status a)); eauto.
    + eauto.
    + eauto.
Qed.

Lemma chatCompletion_throws_no_axios_error_witness :
  (exists m,
     Error_ (js "Mistral API error (404): Not found") = Error_ m)
  \/ (exists issues,
        Error_ (js "Mistral API error (404): Not found") = ZodError_ issues).
Proof.
  apply (@chatCompletion_throws_no_axios_error example_runtime example_client
           (always 12 (Rejected (AxiosError_ not_found_error)))
           {| now := 0; dispatched := [] |} probe_messages no_chat_options).
  vm_compute; reflexivity.
Defined.

(** X6. Whatever goes wrong in [fimCompletion], the transport, the upstream
    or the validation of the reply, the caller gets a plain [Error]. *)
Theorem fimCompletion_throws_plain_errors `{JsRuntime} (this : MistralAPI)
    (net : Network) (w : World) (prompt : jsstring) (foptions : FimOptions) (e : Exn) :
  fst (fimCompletion this net prompt foptions w) = Throw e ->
  exists m, e = Error_ m.
Proof.
  rewrite fimCompletion_run; cbv zeta.
  assert (Hc : forall x, exists m, fimCompletion_catch x = Error_ m).
  { intros [a|m|i]; cbn; eauto.
    destruct (switch_status (response_status a)); eauto. }
  destruct (snd (net w _)) as [r|x].
  - destruct (CompletionResponseSchema_parse (data r)) as [v|x]; cbn [fst];
      [discriminate|].
    intros E; injection E as <-. apply Hc.
  - cbn [fst]. intros E; injection E as <-. apply Hc.
Qed.

Lemma fimCompletion_throws_plain_errors_witness :
  exists m,
    Error_ (js "Unexpected error during FIM completion: "
              ++ @ZodError_message example_runtime
                   [[PKey (js "usage"); PKey (js "total_tokens")]])
    = Error_ m.
Proof.
  apply (@fimCompletion_throws_plain_errors example_runtime example_client
           (always 12 (Resolved {| status := 200;
                                   data := Some reply_without_total_tokens |}))
           {| now := 0; dispatched := [] |} (js "def f():") no_fim_options).
  vm_compute; reflexivity.
Defined.

Lemma malformed_reply_propagates_witness :
  exists issues,
    issues <> []
    /\ fst (@chatCompletion example_runtime example_client
              (always 12 (Resolved {| status := 200;
                                      data := Some reply_without_total_tokens |}))
              probe_messages no_chat_options {| now := 0; dispatched := [] |})
       = Throw (ZodError_ issues)
    /\ fst (@fimCompletion example_runtime example_client
              (always 12 (Resolved {| status := 200;
                                      data := Some reply_without_total_tokens |}))
              (js "def f():") no_fim_options {| now := 0; dispatched := [] |})
       = Throw (Error_ (js "Unexpected error during FIM completion: "
                          ++ @ZodError_message example_runtime issues)).
Proof.
  apply (@malformed_reply_propagates example_runtime example_client
           (always 12 (Resolved {| status := 200;
                                   data := Some reply_without_total_tokens |}))
           {| now := 0; dispatched := [] |}
           {| status := 200; data := Some reply_without_total_tokens |}
           probe_messages no_chat_options (js "def f():") no_fim_options).
  - intros Hs. apply schema_accepts in Hs as (r & E). vm_compute in E. discriminate E.
  - reflexivity.
  - reflexivity.
Defined.

(** ** The key check *)

Lemma validateApiKey_ok_iff `{JsRuntime} (this : MistralAPI) (net : Network) (w : World) :
  fst (validateApiKey this net w) = Ok true
  <-> exists r,
        snd (net w (chat_request this probe_messages probe_options)) = Resolved r
        /\ expected_shape (data r).
Proof.
  rewrite validateApiKey_rethrows, chatCompletion_run; cbv zeta.
  destruct (snd (net w _)) as [r|e].
  - unfold CompletionResponseSchema_parse.
    destruct (CompletionResponseSchema (data r)) as [v|i] eqn:E; cbn [fst]; split.
    + intros _. exists r. split; [reflexivity|]. apply schema_accepts; eauto.
    + reflexivity.
    + discriminate.
    + intros (r' & Er & Hs). injection Er as <-.
      apply schema_accepts in Hs as (v & Ev). congruence.
  - cbn [fst]. split; [discriminate|]. intros (r' & Er & _); discriminate.
Qed.

Lemma validateApiKey_dispatch `{JsRuntime} (this : MistralAPI) (net : Network) (w : World) :
  dispatched (snd (validateApiKey this net w))
  = dispatched w ++ [(now w, chat_request this probe_messages probe_options)].
Proof.
  unfold validateApiKey, try_catch, bind, ret, throw.
  rewrite chatCompletion_run; cbv zeta.
  destruct (snd (net w _)) as [r|e].
  - destruct (CompletionResponseSchema_parse (data r)) as [v|x]; [reflexivity|].
    destruct x as [a|m|i]; cbn [chatCompletion_catch]; try reflexivity.
    destruct (switch_status (response_status a)); reflexivity.
  - destruct e as [a|m|i]; cbn [chatCompletion_catch]; try reflexivity.
    destruct (switch_status (response_status a)); reflexivity.
Qed.

Lemma validateApiKey_only_true `{JsRuntime} (this : MistralAPI) (net : Network) (w : World)
    (b : bool) :
  fst (validateApiKey this net w) = Ok b -> b = true.
Proof.
  rewrite validateApiKey_rethrows.
  destruct (fst (chatCompletion this net probe_messages probe_options w));
    [|discriminate].
  intros E; injection E as <-. reflexivity.
Qed.

(** X7. The key check succeeds exactly when the upstream resolves the probe
    with a body of the expected reply shape; it then returns [true], never
    [false]. In every case it sends one request, the probe. *)
Theorem validateApiKey_succeeds_iff_probe_validates `{JsRuntime} (this : MistralAPI)
    (net : Network) (w : World) :
  (fst (validateApiKey this net w) = Ok true
   <-> exists r,
         snd (net w (chat_request this probe_messages probe_options)) = Resolved r
         /\ expected_shape (data r))
  /\ fst (validateApiKey this net w) <> Ok false
  /\ dispatched (snd (validateApiKey this net w))
     = dispatched w ++ [(now w, chat_request this probe_messages probe_options)].
Proof.
  split; [apply validateApiKey_ok_iff|split; [|apply validateApiKey_dispatch]].
  intros E. apply validateApiKey_only_true in E. discriminate E.
Qed.

(** ** The pacer, called repeatedly *)





(** Three calls with no time between them, on a fresh client at time 5000:
    with an exact timer they return 100 ms apart, with a timer that fires a
    millisecond early they return 99 ms apart. *)
Example paced_calls_example :
  paced_returns example_client exact_clock [0; 0; 0]%N
    {| now := 5000; dispatched := [] |}
  = [5000; 5100; 5200]
  /\ paced_returns example_client early_clock [0; 0; 0]%N
       {| now := 5000; dispatched := [] |}
     = [5000; 5099; 5198].
Proof. split; reflexivity. Qed.

(** A last request recorded far in the future asks for a delay beyond the
    range of Node's timers, which then fire after 1 ms: the call returns at
    once, long before the floor. *)
Example delay_out_of_range_example :
  now (snd (enforceRateLimit
              {| oid := 0; apiKey := js "key";
                 codestralClient := axios_create CODESTRAL_API_BASE (js "key");
                 mistralClient := axios_create MISTRAL_API_BASE (js "key");
                 lastRequestTime := 3000000000000;
                 minRequestInterval := 100 |}
              exact_clock {| now := 5000; dispatched := [] |}))
  = 5001.
Proof. reflexivity. Qed.

(** ** The accessor, called repeatedly *)

Lemma getMistralAPI_instance_kept (key : jsstring) (st : ModuleState) (i : MistralAPI) :
  instance st = Some i -> getMistralAPI key st = (Ok i, st).
Proof. unfold getMistralAPI. intros ->. reflexivity. Qed.

Lemma getMistralAPI_result_cached (key : jsstring) (st : ModuleState) (i : MistralAPI) :
  fst (getMistralAPI key st) = Ok i ->
  instance (snd (getMistralAPI key st)) = Some i.
Proof.
  unfold getMistralAPI. destruct (instance st) as [j|] eqn:Hi.
  - cbn. intros E; injection E as <-. exact Hi.
  - destruct (new_MistralAPI (next_oid st) key); cbn; [|discriminate].
    intros E; injection E as <-. reflexivity.
Qed.

Lemma getMistralAPI_calls_kept (keys : list jsstring) (st : ModuleState) (i : MistralAPI) :
  instance st = Some i ->
  getMistralAPI_calls keys st = (map (fun _ => Ok i) keys, st).
Proof.
  intros Hi. induction keys as [|k keys IH]; [reflexivity|].
  cbn [getMistralAPI_calls map].
  rewrite (getMistralAPI_instance_kept k _ Hi), IH. reflexivity.
Qed.

(** X9. In any run of calls of [getMistralAPI], with any keys, all the calls
    that return give the same instance: the one the first returning call
    built (or found), which stays in the module state to the end. *)
Theorem getMistralAPI_calls_share_one_instance (keys : list jsstring)
    (st : ModuleState) (i j : MistralAPI) :
  In (Ok i) (fst (getMistralAPI_calls keys st)) ->
  In (Ok j) (fst (getMistralAPI_calls keys st)) ->
  i = j /\ instance (snd (getMistralAPI_calls keys st)) = Some i.
Proof.
  revert st. induction keys as [|k keys IH]; intros st; [intros []|].
  cbn [getMistralAPI_calls].
  destruct (getMistralAPI k st) as [r st'] eqn:E.
  destruct r as [a|e].
  - assert (Ha : instance st' = Some a).
    { pose proof (@getMistralAPI_result_cached k st a) as H.
      rewrite E in H. apply H. reflexivity. }
    rewrite (getMistralAPI_calls_kept keys _ Ha). cbn [fst snd].
    assert (Hall : forall x : MistralAPI,
               In (@Ok Exn MistralAPI x)
                  (Ok a :: map (fun _ : jsstring => @Ok Exn MistralAPI a) keys) -> x = a).
    { intros x [Hx|Hx]; [congruence|].
      apply in_map_iff in Hx as (? & Hx & _). congruence. }
    intros Hi Hj. apply Hall in Hi, Hj. subst. auto.
  - specialize (IH st').
    destruct (getMistralAPI_calls keys st') as [rs st''] eqn:Er. cbn [fst snd] in *.
    intros [Hi|Hi] [Hj|Hj]; try discriminate. auto.
Qed.

Lemma getMistralAPI_calls_share_one_instance_witness :
  exists i,
    fst (getMistralAPI_calls [js " "; js "first"; js "second"]
           {| instance := None; next_oid := 0 |})
    = [Throw (Error_ (js "API key cannot be empty")); Ok i; Ok i]
    /\ apiKey i = js "first"
    /\ instance (snd (getMistralAPI_calls [js " "; js "first"; js "second"]
                        {| instance := None; next_oid := 0 |})) = Some i.
Proof.
  eexists. split; [vm_compute; reflexivity|]. split; [reflexivity|].
  eapply (@getMistralAPI_calls_share_one_instance
            [js " "; js "first"; js "second"] {| instance := None; next_oid := 0 |}).
  - right; left. vm_compute. reflexivity.
  - right; right; left. vm_compute. reflexivity.
Defined.

(** X10. While no instance exists, a call of [getMistralAPI] leaves one behind
    exactly when its key is not blank; a blank key throws and the next call
    constructs afresh. *)
Theorem getMistralAPI_caches_iff_key_not_blank (key : jsstring) (st : ModuleState) :
  instance st = None ->
  (instance (snd (getMistralAPI key st)) = None
   <-> forallb is_js_space key = true)
  /\ (forallb is_js_space key = true ->
      fst (getMistralAPI key st) = Throw (Error_ (js "API key cannot be empty")))
  /\ (forallb is_js_space key = false ->
      exists i, fst (getMistralAPI key st) = Ok i
                /\ instance (snd (getMistralAPI key st)) = Some i
                /\ apiKey i = trim key
                /\ oid i = next_oid st).
Proof.
  intros Hn. unfold getMistralAPI. rewrite Hn.
  destruct (new_MistralAPI_cases (next_oid st) key) as [[Hb E]|[Hb E]]; rewrite E, Hb;
    cbn [fst snd instance].
  - repeat split; try reflexivity; discriminate.
  - repeat split; try discriminate. intros _. eexists. repeat split.
Qed.

Lemma getMistralAPI_caches_iff_key_not_blank_witness :
  exists i,
    fst (getMistralAPI (js "sk-1") {| instance := None; next_oid := 7 |}) = Ok i
    /\ instance (snd (getMistralAPI (js "sk-1") {| instance := None; next_oid := 7 |}))
       = Some i
    /\ apiKey i = trim (js "sk-1")
    /\ oid i = 7%nat.
Proof.
  destruct (@getMistralAPI_caches_iff_key_not_blank (js "sk-1")
              {| instance := None; next_oid := 7 |} eq_refl) as (_ & _ & Hok).
  apply Hok. reflexivity.
Defined.

(** ** Tool input schemas *)

Module ZodToolFacts.

Lemma z_optional_ok {A} (p : Parser A) (v : option JSON) (o : option A) :
  z_optional p v = ZodOk o
  <-> (v = None /\ o = None) \/ (exists a, v <> None /\ p v = ZodOk a /\ o = Some a).
Proof.
  unfold z_optional. destruct v as [j|].
  - rewrite zod_map_ok. split.
    + intros (a & E & ->). right. exists a. repeat split; [discriminate|assumption].
    + intros [[E _]|(a & _ & E & ->)]; [discriminate|eauto].
  - split.
    + intros E; injection E as <-. left; auto.
    + intros [[_ ->]|(a & Hn & _)]; [reflexivity|congruence].
Qed.

Lemma z_optional_sound {A} (p : Parser A) (P : A -> Prop) (v : option JSON)
    (o : option A) :
  (forall u a, p u = ZodOk a -> P a) ->
  z_optional p v = ZodOk o ->
  forall a, o = Some a -> P a.
Proof.
  intros Hp E a ->. apply z_optional_ok in E as [[_ E]|(b & _ & Eb & E)];
    [discriminate|].
  injection E as <-. eapply Hp, Eb.
Qed.

Lemma z_enum_ok (values : list jsstring) (v : option JSON) (s : jsstring) :
  z_enum values v = ZodOk s <-> v = Some (JStr s) /\ In s values.
Proof.
  unfold z_enum. destruct v as [[]|]; split;
    try discriminate; try (intros [E _]; discriminate).
  - destruct (existsb (jseqb s0) values) eqn:Hx; [|discriminate].
    intros E; injection E as <-. split; [reflexivity|].
    apply existsb_exists in Hx as (x & Hin & Hx). apply jseqb_eq in Hx. now subst.
  - intros [E Hin]. injection E as ->.
    assert (Hx : existsb (jseqb s) values = true).
    { apply existsb_exists. exists s. split; [assumption|apply jseqb_refl]. }
    now rewrite Hx.
Qed.

Lemma z_number_min_max_ok (lo hi : Q) (v : option JSON) (q : Q) :
  z_number_min_max lo hi v = ZodOk q
  <-> v = Some (JNum q) /\ (lo <= q)%Q /\ (q <= hi)%Q.
Proof.
  unfold z_number_min_max. destruct v as [[]|]; split;
    try discriminate; try (intros [E _]; discriminate).
  - destruct (Qle_bool lo q0 && Qle_bool q0 hi) eqn:Hb; [|discriminate].
    intros E; injection E as <-.
    apply andb_true_iff in Hb as [H1 H2].
    apply Qle_bool_iff in H1, H2. auto.
  - intros (E & H1 & H2). injection E as ->.
    apply Qle_bool_iff in H1, H2. now rewrite H1, H2.
Qed.

Lemma z_number_positive_ok (v : option JSON) (q : Q) :
  z_number_positive v = ZodOk q <-> v = Some (JNum q) /\ (0 < q)%Q.
Proof.
  unfold z_number_positive. destruct v as [[]|]; split;
    try discriminate; try (intros [E _]; discriminate).
  - destruct (Qle_bool q0 0) eqn:Hb; [discriminate|].
    intros E; injection E as <-. split; [reflexivity|].
    apply Qnot_le_lt. intros Hle. apply Qle_bool_iff in Hle. congruence.
  - intros (E & Hpos). injection E as ->.
    destruct (Qle_bool q 0) eqn:Hb; [|reflexivity].
    apply Qle_bool_iff in Hb. exfalso. eapply Qlt_not_le; eauto.
Qed.

Lemma z_task_ok (v : option JSON) (t : Task) :
  z_task v = ZodOk t <-> v = Some (JStr (task_name t)).
Proof.
  unfold z_task. split.
  - destruct v as [[| | |s| |]|]; try discriminate.
    destruct (find _ all_tasks) as [t'|] eqn:Hf; [|discriminate].
    intros E; injection E as <-.
    apply find_some in Hf as [_ Hs]. apply jseqb_eq in Hs. now subst.
  - intros ->. destruct t; reflexivity.
Qed.

End ZodToolFacts.
Import ZodToolFacts.

Ltac zod_inv_tools :=
  zod_inv;
  repeat match goal with
  | H : z_task _ = ZodOk _ |- _ => apply z_task_ok in H
  | H : z_array _ _ = ZodOk _ |- _ => apply z_array_ok in H
  end.

Lemma CodeCompletionSchema_model (args : option JSON) (p : CodeCompletionParams)
    (m : MistralModel) :
  CodeCompletionSchema args = ZodOk p ->
  p_model p = Some m ->
  m = MISTRAL_MODELS CODESTRAL \/ m = MISTRAL_MODELS CODESTRAL_MAMBA.
Proof.
  unfold CodeCompletionSchema. rewrite z_object_ok.
  intros (f & -> & E). zod_inv_tools. cbn [p_model]. intros Em. subst.
  eapply (@z_optional_sound _
            (z_enum [MISTRAL_MODELS CODESTRAL; MISTRAL_MODELS CODESTRAL_MAMBA])
            (fun s => s = MISTRAL_MODELS CODESTRAL \/ s = MISTRAL_MODELS CODESTRAL_MAMBA));
    [|match goal with H : _ = ZodOk (Some _) |- _ => exact H end|reflexivity].
  intros u x Hx. apply z_enum_ok in Hx as [_ [<-|[<-|[]]]]; auto.
Qed.

(** X11. Arguments the code tool accepts carry a code and a task, and every
    optional value present is within its bounds: temperature and top_p in
    [0, 1], max_tokens above 0, the model one of the two code-specialised
    identifiers. *)
Theorem CodeCompletionSchema_accepts_within_bounds (args : option JSON)
    (p : CodeCompletionParams) :
  CodeCompletionSchema args = ZodOk p ->
  (exists f,
     args = Some (JObj f)
     /\ field f "code" = Some (JStr (p_code p))
     /\ field f "task" = Some (JStr (task_name (p_task p))))
  /\ (forall t, p_temperature p = Some t -> (0 <= t)%Q /\ (t <= 1)%Q)
  /\ (forall t, p_top_p p = Some t -> (0 <= t)%Q /\ (t <= 1)%Q)
  /\ (forall n, p_max_tokens p = Some n -> (0 < n)%Q)
  /\ (forall m, p_model p = Some m ->
        m = js "codestral-latest" \/ m = js "codestral-mamba-latest").
Proof.
  intros Hp.
  assert (Hmodel : forall m, p_model p = Some m ->
            m = js "codestral-latest" \/ m = js "codestral-mamba-latest")
    by (intros m; apply (@CodeCompletionSchema_model args p m Hp)).
  revert Hp Hmodel. unfold CodeCompletionSchema. rewrite z_object_ok.
  intros (f & -> & E) Hmodel. zod_inv_tools.
  cbn [p_code p_task p_temperature p_top_p p_max_tokens p_model] in *.
  repeat apply conj; [| | | |exact Hmodel].
  - exists f. auto.
  - intros t Et. subst.
    eapply (@z_optional_sound _ (z_number_min_max 0 1)
              (fun q => (0 <= q)%Q /\ (q <= 1)%Q));
      [|match goal with H : _ = ZodOk (Some _) |- _ => exact H end|reflexivity].
    intros u x Hx. now apply z_number_min_max_ok in Hx.
  - intros t Et. subst.
    eapply (@z_optional_sound _ (z_number_min_max 0 1)
              (fun q => (0 <= q)%Q /\ (q <= 1)%Q));
      [|match goal with H : _ = ZodOk (Some _) |- _ => exact H end|reflexivity].
    intros u x Hx. now apply z_number_min_max_ok in Hx.
  - intros n En. subst.
    eapply (@z_optional_sound _ z_number_positive (fun q => (0 < q)%Q));
      [|match goal with H : _ = ZodOk (Some _) |- _ => exact H end|reflexivity].
    intros u x Hx. now apply z_number_positive_ok in Hx.
Qed.

Lemma CodeCompletionSchema_accepts_within_bounds_witness :
  exists p,
    CodeCompletionSchema (Some example_fim_args) = ZodOk p
    /\ p_task p = task_fim
    /\ (forall t, p_temperature p = Some t -> (0 <= t)%Q /\ (t <= 1)%Q)
    /\ (forall m, p_model p = Some m ->
          m = js "codestral-latest" \/ m = js "codestral-mamba-latest").
Proof.
  eexists. split; [vm_compute; reflexivity|]. split; [reflexivity|].
  match goal with
  | |- context [p_temperature ?p] =>
      destruct (@CodeCompletionSchema_accepts_within_bounds (Some example_fim_args) p)
        as (_ & Ht & _ & _ & Hm)
  end.
  - vm_compute; reflexivity.
  - split; assumption.
Defined.

Lemma chat_message_schema_role (v : option JSON) (m : Message) :
  chat_message_schema v = ZodOk m ->
  In (role m) [js "system"; js "user"; js "assistant"].
Proof.
  unfold chat_message_schema. rewrite z_object_ok.
  intros (f & -> & E). zod_inv.
  match goal with H : z_enum _ _ = ZodOk _ |- _ => apply z_enum_ok in H as [_ H] end.
  assumption.
Qed.

Lemma ChatSchema_model (args : option JSON) (p : ChatParams) (m : MistralModel) :
  ChatSchema args = ZodOk p ->
  c_model p = Some m ->
  In m [MISTRAL_MODELS MISTRAL_LARGE; MISTRAL_MODELS MISTRAL_SMALL;
        MISTRAL_MODELS MINISTRAL_8B; MISTRAL_MODELS MINISTRAL_3B].
Proof.
  unfold ChatSchema. rewrite z_object_ok.
  intros (f & -> & E). zod_inv_tools. cbn [c_model]. intros Em. subst.
  eapply (@z_optional_sound _
            (z_enum [MISTRAL_MODELS MISTRAL_LARGE; MISTRAL_MODELS MISTRAL_SMALL;
                     MISTRAL_MODELS MINISTRAL_8B; MISTRAL_MODELS MINISTRAL_3B])
            (fun s => In s [MISTRAL_MODELS MISTRAL_LARGE; MISTRAL_MODELS MISTRAL_SMALL;
                            MISTRAL_MODELS MINISTRAL_8B; MISTRAL_MODELS MINISTRAL_3B]));
    [|match goal with H : _ = ZodOk (Some _) |- _ => exact H end|reflexivity].
  intros u x Hx. now apply z_enum_ok in Hx.
Qed.

(** X12. Arguments the chat tool accepts hold messages whose roles are
    system, user or assistant, and every optional value present is within its
    bounds: temperature and top_p in [0, 1], max_tokens above 0, the model one
    of the four general-purpose identifiers. *)
Theorem ChatSchema_accepts_within_bounds (args : option JSON) (p : ChatParams) :
  ChatSchema args = ZodOk p ->
  Forall (fun m => role m = js "system" \/ role m = js "user" \/ role m = js "assistant")
         (c_messages p)
  /\ (forall t, c_temperature p = Some t -> (0 <= t)%Q /\ (t <= 1)%Q)
  /\ (forall t, c_top_p p = Some t -> (0 <= t)%Q /\ (t <= 1)%Q)
  /\ (forall n, c_max_tokens p = Some n -> (0 < n)%Q)
  /\ (forall m, c_model p = Some m ->
        m = js "mistral-large-latest" \/ m = js "mistral-small-latest"
        \/ m = js "ministral-8b-latest" \/ m = js "ministral-3b-latest").
Proof.
  intros Hp.
  assert (Hmodel : forall m, c_model p = Some m ->
            m = js "mistral-large-latest" \/ m = js "mistral-small-latest"
            \/ m = js "ministral-8b-latest" \/ m = js "ministral-3b-latest").
  { intros m Em. destruct (@ChatSchema_model args p m Hp Em) as [<-|[<-|[<-|[<-|[]]]]]; auto. }
  revert Hp Hmodel. unfold ChatSchema. rewrite z_object_ok.
  intros (f & -> & E) Hmodel. zod_inv_tools.
  cbn [c_messages c_temperature c_top_p c_max_tokens c_model] in *.
  repeat apply conj; [| | | |exact Hmodel].
  - match goal with
    | H : exists items, _ /\ Forall2 _ items _ |- _ => destruct H as (items & _ & F)
    end.
    induction F as [|x m items ms Hm _ IH]; constructor; [|exact IH].
    apply chat_message_schema_role in Hm.
    destruct Hm as [<-|[<-|[<-|[]]]]; auto.
  - intros t Et. subst.
    eapply (@z_optional_sound _ (z_number_min_max 0 1)
              (fun q => (0 <= q)%Q /\ (q <= 1)%Q));
      [|match goal with H : _ = ZodOk (Some _) |- _ => exact H end|reflexivity].
    intros u x Hx. now apply z_number_min_max_ok in Hx.
  - intros t Et. subst.
    eapply (@z_optional_sound _ (z_number_min_max 0 1)
              (fun q => (0 <= q)%Q /\ (q <= 1)%Q));
      [|match goal with H : _ = ZodOk (Some _) |- _ => exact H end|reflexivity].
    intros u x Hx. now apply z_number_min_max_ok in Hx.
  - intros n En. subst.
    eapply (@z_optional_sound _ z_number_positive (fun q => (0 < q)%Q));
      [|match goal with H : _ = ZodOk (Some _) |- _ => exact H end|reflexivity].
    intros u x Hx. now apply z_number_positive_ok in Hx.
Qed.

Lemma ChatSchema_accepts_within_bounds_witness :
  exists p,
    ChatSchema (Some example_chat_args) = ZodOk p
    /\ Forall (fun m => role m = js "system" \/ role m = js "user"
                        \/ role m = js "assistant")
              (c_messages p)
    /\ (forall t, c_top_p p = Some t -> (0 <= t)%Q /\ (t <= 1)%Q).
Proof.
  eexists. split; [vm_compute; reflexivity|].
  match goal with
  | |- context [c_top_p ?p] =>
      destruct (@ChatSchema_accepts_within_bounds (Some example_chat_args) p)
        as (Hr & _ & Hp & _)
  end.
  - vm_compute; reflexivity.
  - split; assumption.
Defined.

(** ** Tool execution: where the calls go *)

Section ToolCalls.
Context `{JsRuntime} `{NodeRuntime}.

Lemma code_tool_call_dispatch (this : MistralAPI) (net : Network)
    (p : CodeCompletionParams) (w : World) :
  dispatched (snd (code_tool_call this net p w))
  = dispatched w ++ [(now w, code_tool_request this p)].
Proof.
  unfold code_tool_call, code_tool_request. destruct (is_fim (p_task p)).
  - apply fimCompletion_dispatch.
  - apply chatCompletion_dispatch.
Qed.

Lemma handle_code_completion_world (this : MistralAPI) (net : Network)
    (fs : FileSystem) (args : option JSON) (env : Env) (p : CodeCompletionParams) :
  CodeCompletionSchema args = ZodOk p ->
  env_world (snd (handle_code_completion this net fs args env))
  = snd (code_tool_call this net p (env_world env)).
Proof.
  intros Ep. unfold handle_code_completion, zod_parse. rewrite Ep.
  destruct (code_tool_call this net p (env_world env)) as [[c|e] w']; [|reflexivity].
  destruct (formatResponse c) as [t|e]; [|reflexivity].
  destruct (save_output fs p t (env_fs env)) as [[r|] done]; reflexivity.
Qed.

Lemma handle_chat_world (this : MistralAPI) (net : Network) (args : option JSON)
    (env : Env) (p : ChatParams) :
  ChatSchema args = ZodOk p ->
  env_world (snd (handle_chat this net args env))
  = snd (chatCompletion this net (c_messages p) (chat_tool_options p) (env_world env))
  /\ env_fs (snd (handle_chat this net args env)) = env_fs env.
Proof.
  intros Ep. unfold handle_chat, zod_parse. rewrite Ep.
  destruct (chatCompletion this net (c_messages p) (chat_tool_options p) (env_world env))
    as [[c|e] w']; [|split; reflexivity].
  cbv zeta. destruct (first_choice_content c); split; reflexivity.
Qed.

Lemma chat_tool_model (args : option JSON) (p : ChatParams) :
  ChatSchema args = ZodOk p ->
  cb_model (chat_body (c_messages p) (chat_tool_options p))
  = match c_model p with
    | Some m => m
    | None => js "mistral-large-latest"
    end
  /\ In (cb_model (chat_body (c_messages p) (chat_tool_options p)))
        [MISTRAL_MODELS MISTRAL_LARGE; MISTRAL_MODELS MISTRAL_SMALL;
         MISTRAL_MODELS MINISTRAL_8B; MISTRAL_MODELS MINISTRAL_3B].
Proof.
  intros Ep. unfold chat_body, chat_tool_options. cbn [opt_model cb_model].
  destruct (c_model p) as [m|] eqn:Em.
  - pose proof (@ChatSchema_model args p m Ep Em) as Hin.
    destruct Hin as [<-|[<-|[<-|[<-|[]]]]]; cbn; auto 10.
  - cbn. auto 10.
Qed.

Lemma code_tool_chat_model (args : option JSON) (p : CodeCompletionParams) :
  CodeCompletionSchema args = ZodOk p ->
  cb_model (chat_body (createPrompt (p_code p) (p_language p) (p_task p) (p_suffix p))
              (code_tool_chat_options p))
  = match p_model p with
    | Some m => m
    | None => js "codestral-latest"
    end
  /\ In (cb_model (chat_body (createPrompt (p_code p) (p_language p) (p_task p)
                               (p_suffix p))
                     (code_tool_chat_options p)))
        [MISTRAL_MODELS CODESTRAL; MISTRAL_MODELS CODESTRAL_MAMBA].
Proof.
  intros Ep. unfold chat_body, code_tool_chat_options. cbn [opt_model cb_model].
  destruct (p_model p) as [m|] eqn:Em.
  - destruct (@CodeCompletionSchema_model args p m Ep Em) as [->| ->]; cbn; auto 10.
  - cbn. auto 10.
Qed.

(** X13. On a constructed client, a call of the chat tool sends nothing when
    its arguments are rejected and otherwise exactly one request: to the
    general-purpose base, on the chat-completions path, authenticated with the
    stored key, for the requested model or [mistral-large-latest] when none
    is given. It never touches the file system. *)
Theorem chat_tool_reaches_only_general_base (o : nat) (key : jsstring)
    (this : MistralAPI) (net : Network) (args : option JSON) (env : Env) :
  new_MistralAPI o key = Ok this ->
  env_fs (snd (handle_chat this net args env)) = env_fs env
  /\ match ChatSchema args with
     | ZodFail _ =>
         dispatched (env_world (snd (handle_chat this net args env)))
         = dispatched (env_world env)
     | ZodOk p =>
         exists body,
           dispatched (env_world (snd (handle_chat this net args env)))
           = dispatched (env_world env)
               ++ [(now (env_world env),
                    {| req_client :=
                         axios_create (js "https://api.mistral.com/v1") (trim key);
                       req_path := js "/chat/completions";
                       req_body := ChatReq body |})]
           /\ cb_messages body = c_messages p
           /\ cb_model body = match c_model p with
                              | Some m => m
                              | None => js "mistral-large-latest"
                              end
     end.
Proof.
  intros Ek. destruct (ChatSchema args) as [p|issues] eqn:Ep.
  - destruct (handle_chat_world this net args env Ep) as [Hw Hf].
    split; [exact Hf|].
    destruct (chat_tool_model args Ep) as [Hm Hin].
    exists (chat_body (c_messages p) (chat_tool_options p)).
    split; [|split; [reflexivity|exact Hm]].
    rewrite Hw.
    destruct (chatCompletion_dispatch this net (c_messages p) (chat_tool_options p)
                (env_world env)) as [D _].
    rewrite D. unfold chat_request.
    rewrite (@getClient_constructed o key this _ Ek).
    destruct Hin as [<-|[<-|[<-|[<-|[]]]]]; reflexivity.
  - unfold handle_chat, zod_parse. rewrite Ep. split; reflexivity.
Qed.

(** X14. On a constructed client, a call of the code tool sends nothing when
    its arguments are rejected and otherwise exactly one request, to the
    code-specialised base: on the fill-in-the-middle path when the task is
    fim, on the chat-completions path for the other tasks. *)
Theorem code_tool_reaches_only_code_base (o : nat) (key : jsstring)
    (this : MistralAPI) (net : Network) (fs : FileSystem) (args : option JSON)
    (env : Env) :
  new_MistralAPI o key = Ok this ->
  match CodeCompletionSchema args with
  | ZodFail _ =>
      dispatched (env_world (snd (handle_code_completion this net fs args env)))
      = dispatched (env_world env)
      /\ env_fs (snd (handle_code_completion this net fs args env)) = env_fs env
  | ZodOk p =>
      exists body,
        dispatched (env_world (snd (handle_code_completion this net fs args env)))
        = dispatched (env_world env)
            ++ [(now (env_world env),
                 {| req_client :=
                      axios_create (js "https://codestral.mistral.ai/v1") (trim key);
                    req_path := if is_fim (p_task p)
                                then js "/fim/completions"
                                else js "/chat/completions";
                    req_body := body |})]
        /\ match body with
           | FimReq _ => p_task p = task_fim
           | ChatReq _ => p_task p <> task_fim
           end
  end.
Proof.
  intros Ek. destruct (CodeCompletionSchema args) as [p|issues] eqn:Ep.
  - rewrite (handle_code_completion_world this net fs args env Ep).
    rewrite code_tool_call_dispatch. unfold code_tool_request.
    destruct (new_MistralAPI_cases o key) as [[_ E']|[_ E']]; rewrite E' in Ek;
      [discriminate|].
    injection Ek as <-.
    pose proof (code_tool_chat_model args Ep) as [_ Hin].
    destruct (is_fim (p_task p)) eqn:Ef.
    + eexists. split; [reflexivity|].
      destruct (p_task p); try discriminate Ef; reflexivity.
    + eexists. split.
      * unfold chat_request. destruct Hin as [<-|[<-|[]]]; reflexivity.
      * cbn. intros Et. rewrite Et in Ef. discriminate Ef.
  - unfold handle_code_completion, zod_parse. rewrite Ep. split; reflexivity.
Qed.

End ToolCalls.

Lemma chat_tool_reaches_only_general_base_witness :
  map (fun tr => baseURL (req_client (snd tr)))
      (dispatched (env_world (snd (@handle_chat example_runtime example_node
                                     example_client (replies_with reply_with_fenced_code)
                                     (Some example_chat_args) fresh_env))))
  = [js "https://api.mistral.com/v1"].
Proof.
  destruct (@chat_tool_reaches_only_general_base example_runtime example_node
              0 (js "key") example_client (replies_with reply_with_fenced_code)
              (Some example_chat_args) fresh_env eq_refl) as [_ Hd].
  assert (Ep : exists p, ChatSchema (Some example_chat_args) = ZodOk p)
    by (eexists; vm_compute; reflexivity).
  destruct Ep as (p & Ep). rewrite Ep in Hd.
  destruct Hd as (body & Hd & _). rewrite Hd. reflexivity.
Defined.

Lemma code_tool_reaches_only_code_base_witness :
  map (fun tr => (baseURL (req_client (snd tr)), req_path (snd tr)))
      (dispatched (env_world (snd (@handle_code_completion example_runtime example_node
                                     example_client (replies_with reply_with_fenced_code)
                                     fs_ok (Some example_fim_args) fresh_env))))
  = [(js "https://codestral.mistral.ai/v1", js "/fim/completions")].
Proof.
  pose proof (@code_tool_reaches_only_code_base example_runtime example_node
                0 (js "key") example_client (replies_with reply_with_fenced_code)
                fs_ok (Some example_fim_args) fresh_env eq_refl) as Hd.
  assert (Ep : exists p, CodeCompletionSchema (Some example_fim_args) = ZodOk p
                         /\ p_task p = task_fim)
    by (eexists; split; [vm_compute; reflexivity|reflexivity]).
  destruct Ep as (p & Ep & Et). rewrite Ep in Hd.
  destruct Hd as (body & Hd & _). rewrite Hd, Et. reflexivity.
Defined.

(** ** Tool execution: what is sent and what comes back *)

Section ToolReplies.
Context `{JsRuntime} `{NodeRuntime}.

(** X15. For the task fim the code tool sends the code as it is, as the
    prompt of a fill-in-the-middle request for [codestral-latest]: the
    language and the model of the arguments are not used, and no prompt is
    built. The default temperature is 0. *)
Theorem code_tool_fim_request (this : MistralAPI) (net : Network) (fs : FileSystem)
    (args : option JSON) (env : Env) (p : CodeCompletionParams) :
  CodeCompletionSchema args = ZodOk p ->
  p_task p = task_fim ->
  dispatched (env_world (snd (handle_code_completion this net fs args env)))
  = dispatched (env_world env)
      ++ [(now (env_world env),
           {| req_client := codestralClient this;
              req_path := js "/fim/completions";
              req_body :=
                FimReq {| fb_model := js "codestral-latest";
                          fb_prompt := p_code p;
                          fb_suffix := p_suffix p;
                          fb_temperature := nullish (p_temperature p) 0%Q;
                          fb_top_p := nullish (p_top_p p) 1%Q;
                          fb_max_tokens := nullish (p_max_tokens p) 1000%Q;
                          fb_stop := p_stop p |} |})].
Proof.
  intros Ep Et.
  rewrite (handle_code_completion_world this net fs args env Ep).
  rewrite code_tool_call_dispatch. unfold code_tool_request. rewrite Et.
  reflexivity.
Qed.

(** X16. For the tasks complete, fix and test the code tool sends a chat
    request whose messages are the system prompt of the task and one user
    message with the fenced code alone: a suffix in the arguments is dropped.
    The model is the requested one, or [codestral-latest]; the default
    temperature is 0.7. *)
Theorem code_tool_chat_request (this : MistralAPI) (net : Network) (fs : FileSystem)
    (args : option JSON) (env : Env) (p : CodeCompletionParams) :
  CodeCompletionSchema args = ZodOk p ->
  p_task p <> task_fim ->
  exists client,
    dispatched (env_world (snd (handle_code_completion this net fs args env)))
    = dispatched (env_world env)
        ++ [(now (env_world env),
             {| req_client := client;
                req_path := js "/chat/completions";
                req_body :=
                  ChatReq {| cb_model := match p_model p with
                                         | Some m => m
                                         | None => js "codestral-latest"
                                         end;
                             cb_messages :=
                               [ {| role := js "system";
                                    content := systemPrompts (p_task p) |};
                                 {| role := js "user";
                                    content := user_preamble (p_language p)
                                                 ++ fenced (p_language p) (p_code p) |} ];
                             cb_temperature := nullish (p_temperature p) (7 # 10)%Q;
                             cb_top_p := nullish (p_top_p p) 1%Q;
                             cb_max_tokens := nullish (p_max_tokens p) 1000%Q;
                             cb_stop := p_stop p |} |})].
Proof.
  intros Ep Et.
  rewrite (handle_code_completion_world this net fs args env Ep).
  rewrite code_tool_call_dispatch. unfold code_tool_request.
  destruct (code_tool_chat_model args Ep) as [Hm _].
  assert (Ef : is_fim (p_task p) = false)
    by (revert Et; destruct (p_task p); intros Et; try reflexivity; congruence).
  rewrite Ef. unfold chat_request. eexists. do 3 f_equal.
  unfold chat_body in *. cbn [cb_model] in Hm. rewrite Hm.
  unfold code_tool_chat_options; cbn [opt_temperature opt_top_p opt_max_tokens opt_stop].
  f_equal.
  unfold createPrompt, user_preamble, fenced. rewrite Ef. cbn [andb].
  repeat (rewrite <- ?app_assoc). reflexivity.
Qed.

(** X17. When the upstream call of the chat tool returns a completion with a
    choice, the tool replies with the content of the first choice as it is:
    no code is extracted from it. *)
Theorem chat_tool_replies_verbatim (this : MistralAPI) (net : Network)
    (args : option JSON) (env : Env) (p : ChatParams)
    (completion : CompletionResponse) (first : Choice) (others : list Choice) :
  ChatSchema args = ZodOk p ->
  fst (chatCompletion this net (c_messages p) (chat_tool_options p) (env_world env))
  = Ok completion ->
  choices completion = first :: others ->
  fst (handle_chat this net args env)
  = {| tr_text := cm_content (message first); tr_isError := false |}.
Proof.
  intros Ep Ec Ech. unfold handle_chat, zod_parse. rewrite Ep.
  destruct (chatCompletion this net (c_messages p) (chat_tool_options p) (env_world env))
    as [r w']. cbn [fst] in Ec. subst r.
  cbv zeta. unfold first_choice_content. rewrite Ech. reflexivity.
Qed.

(** X18. When the upstream call of the code tool returns a completion with a
    choice and no output path is given, the tool replies with the code
    extracted from the content of the first choice, and writes no file. *)
Theorem code_tool_replies_extracted_code (this : MistralAPI) (net : Network)
    (fs : FileSystem) (args : option JSON) (env : Env) (p : CodeCompletionParams)
    (completion : CompletionResponse) (first : Choice) (others : list Choice) :
  CodeCompletionSchema args = ZodOk p ->
  fst (code_tool_call this net p (env_world env)) = Ok completion ->
  choices completion = first :: others ->
  truthy (p_outputPath p) = false ->
  fst (handle_code_completion this net fs args env)
  = {| tr_text := extractCodeBlocks (cm_content (message first)); tr_isError := false |}
  /\ env_fs (snd (handle_code_completion this net fs args env)) = env_fs env.
Proof.
  intros Ep Ec Ech Hp. unfold handle_code_completion, zod_parse. rewrite Ep.
  destruct (code_tool_call this net p (env_world env)) as [r w'].
  cbn [fst] in Ec. subst r.
  unfold formatResponse. rewrite Ech. unfold save_output. rewrite Hp.
  split; reflexivity.
Qed.

(** X19. A completion without choices ends both tools with an error reply and
    no file: the code tool with "Error: Invalid completion response", the
    chat tool with the message of the [TypeError] that the read of the
    missing first choice raises. *)
Theorem empty_choices_end_in_error_reply (this : MistralAPI) (net : Network)
    (fs : FileSystem) (env : Env) (completion : CompletionResponse) :
  choices completion = [] ->
  (forall args p,
     ChatSchema args = ZodOk p ->
     fst (chatCompletion this net (c_messages p) (chat_tool_options p) (env_world env))
     = Ok completion ->
     fst (handle_chat this net args env)
     = {| tr_text := js "Error: " ++ read_of_undefined_message; tr_isError := true |})
  /\ (forall args p,
        CodeCompletionSchema args = ZodOk p ->
        fst (code_tool_call this net p (env_world env)) = Ok completion ->
        fst (handle_code_completion this net fs args env)
        = {| tr_text := js "Error: Invalid completion response"; tr_isError := true |}
        /\ env_fs (snd (handle_code_completion this net fs args env)) = env_fs env).
Proof.
  intros Ech. split.
  - intros args p Ep Ec. unfold handle_chat, zod_parse. rewrite Ep.
    destruct (chatCompletion this net (c_messages p) (chat_tool_options p)
                (env_world env)) as [r w']. cbn [fst] in Ec. subst r.
    cbv zeta. unfold first_choice_content. rewrite Ech. reflexivity.
  - intros args p Ep Ec. unfold handle_code_completion, zod_parse. rewrite Ep.
    destruct (code_tool_call this net p (env_world env)) as [r w'].
    cbn [fst] in Ec. subst r.
    unfold formatResponse. rewrite Ech. split; reflexivity.
Qed.

End ToolReplies.

Lemma code_tool_fim_request_witness :
  exists p,
    CodeCompletionSchema (Some example_fim_args) = ZodOk p
    /\ p_model p = Some (js "codestral-mamba-latest")
    /\ dispatched (env_world (snd (@handle_code_completion example_runtime example_node
                                     example_client (replies_with reply_with_fenced_code)
                                     fs_ok (Some example_fim_args) fresh_env)))
       = dispatched (env_world fresh_env)
           ++ [(now (env_world fresh_env),
                {| req_client := codestralClient example_client;
                   req_path := js "/fim/completions";
                   req_body :=
                     FimReq {| fb_model := js "codestral-latest";
                               fb_prompt := p_code p;
                               fb_suffix := p_suffix p;
                               fb_temperature := nullish (p_temperature p) 0%Q;
                               fb_top_p := nullish (p_top_p p) 1%Q;
                               fb_max_tokens := nullish (p_max_tokens p) 1000%Q;
                               fb_stop := p_stop p |} |})].
Proof.
  eexists. split; [vm_compute; reflexivity|]. split; [reflexivity|].
  apply (@code_tool_fim_request example_runtime example_node example_client
           (replies_with reply_with_fenced_code) fs_ok (Some example_fim_args)
           fresh_env);
    [vm_compute; reflexivity | reflexivity].
Defined.

Lemma code_tool_chat_request_witness :
  exists p client,
    CodeCompletionSchema (Some example_fix_args) = ZodOk p
    /\ p_suffix p = Some (js "print(x)")
    /\ dispatched (env_world (snd (@handle_code_completion example_runtime example_node
                                     example_client (replies_with reply_with_fenced_code)
                                     fs_ok (Some example_fix_args) fresh_env)))
       = dispatched (env_world fresh_env)
           ++ [(now (env_world fresh_env),
                {| req_client := client;
                   req_path := js "/chat/completions";
                   req_body :=
                     ChatReq {| cb_model := match p_model p with
                                            | Some m => m
                                            | None => js "codestral-latest"
                                            end;
                                cb_messages :=
                                  [ {| role := js "system";
                                       content := systemPrompts (p_task p) |};
                                    {| role := js "user";
                                       content := user_preamble (p_language p)
                                                    ++ fenced (p_language p) (p_code p) |} ];
                                cb_temperature := nullish (p_temperature p) (7 # 10)%Q;
                                cb_top_p := nullish (p_top_p p) 1%Q;
                                cb_max_tokens := nullish (p_max_tokens p) 1000%Q;
                                cb_stop := p_stop p |} |})].
Proof.
  assert (Ep : exists p, CodeCompletionSchema (Some example_fix_args) = ZodOk p
                         /\ p_suffix p = Some (js "print(x)")
                         /\ p_task p <> task_fim).
  { eexists. split; [vm_compute; reflexivity|]. split; [reflexivity|discriminate]. }
  destruct Ep as (p & Ep & Es & Et).
  destruct (@code_tool_chat_request example_runtime example_node example_client
              (replies_with reply_with_fenced_code) fs_ok (Some example_fix_args)
              fresh_env p Ep Et) as (client & Hd).
  exists p, client. auto.
Defined.

Lemma chat_tool_replies_verbatim_witness :
  fst (@handle_chat example_runtime example_node example_client
         (replies_with reply_with_fenced_code) (Some example_chat_args) fresh_env)
  = {| tr_text := fenced_reply_content; tr_isError := false |}.
Proof.
  assert (Ep : exists p, ChatSchema (Some example_chat_args) = ZodOk p)
    by (eexists; vm_compute; reflexivity).
  destruct Ep as (p & Ep).
  assert (Ec : exists completion first others,
             fst (@chatCompletion example_runtime example_client
                    (replies_with reply_with_fenced_code) (c_messages p)
                    (chat_tool_options p) (env_world fresh_env)) = Ok completion
             /\ choices completion = first :: others
             /\ cm_content (message first) = fenced_reply_content).
  { rewrite chatCompletion_run. do 3 eexists.
    split; [vm_compute; reflexivity|]. split; reflexivity. }
  destruct Ec as (completion & first & others & Ec & Ech & Econtent).
  rewrite <- Econtent.
  exact (@chat_tool_replies_verbatim example_runtime example_node example_client
           (replies_with reply_with_fenced_code) (Some example_chat_args) fresh_env
           p completion first others Ep Ec Ech).
Defined.

Lemma code_tool_replies_extracted_code_witness :
  fst (@handle_code_completion example_runtime example_node example_client
         (replies_with reply_with_fenced_code) fs_ok (Some example_fix_args) fresh_env)
  = {| tr_text := js "return a + b"; tr_isError := false |}.
Proof.
  assert (Ep : exists p, CodeCompletionSchema (Some example_fix_args) = ZodOk p
                         /\ truthy (p_outputPath p) = false
                         /\ p_task p = task_fix)
    by (eexists; split; [vm_compute; reflexivity|split; reflexivity]).
  destruct Ep as (p & Ep & Hp & Et).
  assert (Ec : exists completion first others,
             fst (@code_tool_call example_runtime example_client
                    (replies_with reply_with_fenced_code) p (env_world fresh_env))
             = Ok completion
             /\ choices completion = first :: others
             /\ extractCodeBlocks (cm_content (message first)) = js "return a + b").
  { unfold code_tool_call. rewrite Et. cbn [is_fim]. rewrite chatCompletion_run.
    do 3 eexists. split; [vm_compute; reflexivity|]. split; reflexivity. }
  destruct Ec as (completion & first & others & Ec & Ech & Ecode).
  rewrite <- Ecode.
  exact (proj1 (@code_tool_replies_extracted_code example_runtime example_node
                  example_client (replies_with reply_with_fenced_code) fs_ok
                  (Some example_fix_args) fresh_env p completion first others
                  Ep Ec Ech Hp)).
Defined.

Lemma empty_choices_end_in_error_reply_witness :
  fst (@handle_chat example_runtime example_node example_client
         (replies_with reply_without_choices) (Some example_chat_args) fresh_env)
  = {| tr_text := js "Error: Cannot read properties of undefined (reading 'message')";
       tr_isError := true |}.
Proof.
  assert (Ep : exists p, ChatSchema (Some example_chat_args) = ZodOk p)
    by (eexists; vm_compute; reflexivity).
  destruct Ep as (p & Ep).
  assert (Ec : exists completion,
             fst (@chatCompletion example_runtime example_client
                    (replies_with reply_without_choices) (c_messages p)
                    (chat_tool_options p) (env_world fresh_env)) = Ok completion
             /\ choices completion = []).
  { rewrite chatCompletion_run. eexists. split; [vm_compute; reflexivity|reflexivity]. }
  destruct Ec as (completion & Ec & Ech).
  exact (proj1 (@empty_choices_end_in_error_reply example_runtime example_node
                  example_client (replies_with reply_without_choices) fs_ok fresh_env
                  completion Ech) (Some example_chat_args) p Ep Ec).
Defined.

(** ** Tool execution: the output file *)

Section ToolFiles.
Context `{JsRuntime} `{NodeRuntime}.

Lemma truthy_Some (s : option jsstring) :
  truthy s = true -> exists path, s = Some path /\ path <> [] /\ or_empty s = path.
Proof.
  destruct s as [[|c l]|]; try discriminate. intros _.
  exists (c :: l). repeat split. discriminate.
Qed.

Lemma save_output_ops (fs : FileSystem) (p : CodeCompletionParams) (t : jsstring)
    (done : list FsOp) :
  exists ops,
    snd (save_output fs p t done) = done ++ ops
    /\ (ops = []
        \/ exists path,
             p_outputPath p = Some path /\ path <> []
             /\ (ops = [Mkdir (path_dirname path)]
                 \/ ops = [Mkdir (path_dirname path); WriteFile path t])).
Proof.
  unfold save_output. destruct (truthy (p_outputPath p)) eqn:Ht.
  - apply truthy_Some in Ht as (path & Ep & Hne & ->).
    unfold fs_do.
    destruct (fs done (Mkdir (path_dirname path))) as [e|].
    + exists []. rewrite app_nil_r. auto.
    + destruct (fs (done ++ [Mkdir (path_dirname path)]) (WriteFile path t)) as [e|].
      * exists [Mkdir (path_dirname path)]. split; [reflexivity|].
        right. exists path. auto.
      * exists [Mkdir (path_dirname path); WriteFile path t]. split.
        -- destruct (p_streamToFile p) as [[|]|]; cbn [snd];
             rewrite <- app_assoc; reflexivity.
        -- right. exists path. auto.
  - exists []. rewrite app_nil_r. auto.
Qed.

(** X20. Whatever the upstream and the file system do, a call of the code
    tool adds at most a directory creation and one file write to the file
    system: the write goes to the output path of the arguments, it holds the
    code extracted from a completion the upstream call returned, and the
    directory is the one [path.dirname] gives for that path. Nothing is
    written when the arguments are rejected or the upstream call fails. *)
Theorem code_tool_writes_only_extracted_code (this : MistralAPI) (net : Network)
    (fs : FileSystem) (args : option JSON) (env : Env) :
  exists ops,
    env_fs (snd (handle_code_completion this net fs args env)) = env_fs env ++ ops
    /\ (List.length ops <= 2)%nat
    /\ (forall path content,
          In (WriteFile path content) ops ->
          exists p completion,
            CodeCompletionSchema args = ZodOk p
            /\ p_outputPath p = Some path
            /\ fst (code_tool_call this net p (env_world env)) = Ok completion
            /\ formatResponse completion = Ok content)
    /\ (forall dir,
          In (Mkdir dir) ops ->
          exists p path,
            CodeCompletionSchema args = ZodOk p
            /\ p_outputPath p = Some path
            /\ dir = path_dirname path).
Proof.
  unfold handle_code_completion, zod_parse.
  assert (Hnone : exists ops : list FsOp,
             env_fs env = env_fs env ++ ops
             /\ (List.length ops <= 2)%nat
             /\ (forall path content,
                   In (WriteFile path content) ops ->
                   exists p completion,
                     CodeCompletionSchema args = ZodOk p
                     /\ p_outputPath p = Some path
                     /\ fst (code_tool_call this net p (env_world env)) = Ok completion
                     /\ formatResponse completion = Ok content)
             /\ (forall dir,
                   In (Mkdir dir) ops ->
                   exists p path,
                     CodeCompletionSchema args = ZodOk p
                     /\ p_outputPath p = Some path
                     /\ dir = path_dirname path)).
  { exists []. rewrite app_nil_r. repeat split; [simpl; lia|intros ? ? []|intros ? []]. }
  destruct (CodeCompletionSchema args) as [p|issues] eqn:Ep; [|exact Hnone].
  destruct (code_tool_call this net p (env_world env)) as [[c|e] w'] eqn:Ec;
    [|exact Hnone].
  destruct (formatResponse c) as [t|e] eqn:Ef; [|exact Hnone].
  destruct (save_output_ops fs p t (env_fs env)) as (ops & Hops & Hcases).
  exists ops.
  assert (Hfs : env_fs (snd
                  match save_output fs p t (env_fs env) with
                  | (Some reply, done) => (reply, {| env_world := w'; env_fs := done |})
                  | (None, done) =>
                      (text_result t, {| env_world := w'; env_fs := done |})
                  end) = env_fs env ++ ops).
  { destruct (save_output fs p t (env_fs env)) as [[r|] done]; exact Hops. }
  split; [exact Hfs|].
  destruct Hcases as [->|(path & Epath & Hne & [->| ->])].
  - repeat split; [simpl; lia|intros ? ? []|intros ? []].
  - repeat split; [simpl; lia| |].
    + intros q content [Hin|[]]. discriminate Hin.
    + intros dir [Hin|[]]. injection Hin as <-. exists p, path. auto.
  - repeat split; [simpl; lia| |].
    + intros q content [Hin|[Hin|[]]]; [discriminate Hin|].
      injection Hin as <- <-. exists p, c. rewrite Ec. cbn [fst]. auto.
    + intros dir [Hin|[Hin|[]]]; [|discriminate Hin].
      injection Hin as <-. exists p, path. auto.
Qed.

(** X21. When the arguments name an output path, the upstream call returns a
    completion with a choice and the file system lets both operations
    through, the code tool creates the directory of the path and writes the
    extracted code to the path; it then replies "Successfully saved to
    <path>" when [streamToFile] is true, and with the code otherwise. *)
Theorem code_tool_saves_output (this : MistralAPI) (net : Network) (fs : FileSystem)
    (args : option JSON) (env : Env) (p : CodeCompletionParams)
    (completion : CompletionResponse) (code path : jsstring) :
  CodeCompletionSchema args = ZodOk p ->
  fst (code_tool_call this net p (env_world env)) = Ok completion ->
  formatResponse completion = Ok code ->
  p_outputPath p = Some path ->
  path <> [] ->
  fs (env_fs env) (Mkdir (path_dirname path)) = None ->
  fs (env_fs env ++ [Mkdir (path_dirname path)]) (WriteFile path code) = None ->
  env_fs (snd (handle_code_completion this net fs args env))
  = env_fs env ++ [Mkdir (path_dirname path); WriteFile path code]
  /\ fst (handle_code_completion this net fs args env)
     = match p_streamToFile p with
       | Some true =>
           {| tr_text := js "Successfully saved to " ++ path; tr_isError := false |}
       | _ => {| tr_text := code; tr_isError := false |}
       end.
Proof.
  intros Ep Ec Ef Epath Hne Hmk Hwr.
  unfold handle_code_completion, zod_parse. rewrite Ep.
  destruct (code_tool_call this net p (env_world env)) as [r w'].
  cbn [fst] in Ec. subst r. rewrite Ef.
  unfold save_output. rewrite Epath.
  destruct path as [|c l]; [congruence|]. cbn [truthy or_empty].
  unfold fs_do. rewrite Hmk, Hwr.
  destruct (p_streamToFile p) as [[|]|]; cbn [fst snd env_fs];
    rewrite <- app_assoc; split; reflexivity.
Qed.

(** X22. When the file system rejects the creation of the directory, or the
    write after it, the code tool replies "Error saving to file: <message>"
    as an error, although the upstream call succeeded; the code is not part
    of the reply and no write is recorded. *)
Theorem code_tool_reports_save_failure (this : MistralAPI) (net : Network)
    (fs : FileSystem) (args : option JSON) (env : Env) (p : CodeCompletionParams)
    (completion : CompletionResponse) (code path : jsstring) (e : Exn) :
  CodeCompletionSchema args = ZodOk p ->
  fst (code_tool_call this net p (env_world env)) = Ok completion ->
  formatResponse completion = Ok code ->
  p_outputPath p = Some path ->
  path <> [] ->
  (fs (env_fs env) (Mkdir (path_dirname path)) = Some e ->
   fst (handle_code_completion this net fs args env)
   = {| tr_text := js "Error saving to file: " ++ exn_message e; tr_isError := true |}
   /\ env_fs (snd (handle_code_completion this net fs args env)) = env_fs env)
  /\ (fs (env_fs env) (Mkdir (path_dirname path)) = None ->
      fs (env_fs env ++ [Mkdir (path_dirname path)]) (WriteFile path code) = Some e ->
      fst (handle_code_completion this net fs args env)
      = {| tr_text := js "Error saving to file: " ++ exn_message e; tr_isError := true |}
      /\ env_fs (snd (handle_code_completion this net fs args env))
         = env_fs env ++ [Mkdir (path_dirname path)]).
Proof.
  intros Ep Ec Ef Epath Hne.
  unfold handle_code_completion, zod_parse. rewrite Ep.
  destruct (code_tool_call this net p (env_world env)) as [r w'].
  cbn [fst] in Ec. subst r. rewrite Ef.
  unfold save_output. rewrite Epath.
  destruct path as [|c l]; [congruence|]. cbn [truthy or_empty].
  unfold fs_do. split.
  - intros Hmk. rewrite Hmk. split; reflexivity.
  - intros Hmk Hwr. rewrite Hmk, Hwr. split; reflexivity.
Qed.

End ToolFiles.

Lemma code_tool_saves_output_witness :
  env_fs (snd (@handle_code_completion example_runtime example_node example_client
                 (replies_with reply_with_fenced_code) fs_ok (Some example_fim_args)
                 fresh_env))
  = [Mkdir (js "out/add.py"); WriteFile (js "out/add.py") (js "return a + b")]
  /\ fst (@handle_code_completion example_runtime example_node example_client
            (replies_with reply_with_fenced_code) fs_ok (Some example_fim_args)
            fresh_env)
     = {| tr_text := js "Successfully saved to out/add.py"; tr_isError := false |}.
Proof.
  assert (Ep : exists p, CodeCompletionSchema (Some example_fim_args) = ZodOk p
                         /\ p_outputPath p = Some (js "out/add.py")
                         /\ p_streamToFile p = Some true
                         /\ p_task p = task_fim)
    by (eexists; split; [vm_compute; reflexivity|repeat split]).
  destruct Ep as (p & Ep & Epath & Estream & Et).
  assert (Ec : exists completion,
             fst (@code_tool_call example_runtime example_client
                    (replies_with reply_with_fenced_code) p (env_world fresh_env))
             = Ok completion
             /\ formatResponse completion = Ok (js "return a + b")).
  { unfold code_tool_call. rewrite Et. cbn [is_fim]. rewrite fimCompletion_run.
    eexists. split; [vm_compute; reflexivity|reflexivity]. }
  destruct Ec as (completion & Ec & Ef).
  pose proof (@code_tool_saves_output example_runtime example_node example_client
                (replies_with reply_with_fenced_code) fs_ok (Some example_fim_args)
                fresh_env p completion (js "return a + b") (js "out/add.py")
                Ep Ec Ef Epath ltac:(discriminate) eq_refl eq_refl) as [Hfs Hreply].
  rewrite Estream in Hreply. split; [exact Hfs|exact Hreply].
Defined.

Lemma code_tool_reports_save_failure_witness :
  fst (@handle_code_completion example_runtime example_node example_client
         (replies_with reply_with_fenced_code) fs_read_only (Some example_fim_args)
         fresh_env)
  = {| tr_text := js "Error saving to file: EROFS: read-only file system";
       tr_isError := true |}
  /\ env_fs (snd (@handle_code_completion example_runtime example_node example_client
                    (replies_with reply_with_fenced_code) fs_read_only
                    (Some example_fim_args) fresh_env)) = [].
Proof.
  assert (Ep : exists p, CodeCompletionSchema (Some example_fim_args) = ZodOk p
                         /\ p_outputPath p = Some (js "out/add.py")
                         /\ p_task p = task_fim)
    by (eexists; split; [vm_compute; reflexivity|repeat split]).
  destruct Ep as (p & Ep & Epath & Et).
  assert (Ec : exists completion,
             fst (@code_tool_call example_runtime example_client
                    (replies_with reply_with_fenced_code) p (env_world fresh_env))
             = Ok completion
             /\ formatResponse completion = Ok (js "return a + b")).
  { unfold code_tool_call. rewrite Et. cbn [is_fim]. rewrite fimCompletion_run.
    eexists. split; [vm_compute; reflexivity|reflexivity]. }
  destruct Ec as (completion & Ec & Ef).
  destruct (@code_tool_reports_save_failure example_runtime example_node example_client
              (replies_with reply_with_fenced_code) fs_read_only
              (Some example_fim_args) fresh_env p completion (js "return a + b")
              (js "out/add.py") (Error_ (js "EROFS: read-only file system"))
              Ep Ec Ef Epath ltac:(discriminate)) as [Hmk _].
  exact (Hmk eq_refl).
Defined.

(** ** Process start *)

(** X23. With no instance yet, the start of the process ends with a ready
    client exactly when the configured key is not blank and the upstream
    resolves the probe, sent with that client, with a body of the expected
    reply shape. *)
Theorem initialize_ready_iff `{JsRuntime} (key : option jsstring) (net : Network)
    (st : ModuleState) (w : World) (api : MistralAPI) :
  instance st = None ->
  (fst (fst (initialize key net st w)) = Ready api
   <-> exists k r,
         key = Some k
         /\ new_MistralAPI (next_oid st) k = Ok api
         /\ snd (net w (chat_request api probe_messages probe_options)) = Resolved r
         /\ expected_shape (data r)).
Proof.
  intros Hn. unfold initialize, envSchema_parse, getMistralAPI. rewrite Hn.
  destruct key as [[|c k]|].
  - cbn. split; [discriminate|].
    intros (k & r & Ek & Ea & _). injection Ek as <-. discriminate Ea.
  - destruct (new_MistralAPI (next_oid st) (c :: k)) as [i|e] eqn:Ei.
    + destruct (validateApiKey i net w) as [[b|e] w'] eqn:Ev; cbn [fst]; split.
      * intros E; injection E as <-. exists (c :: k).
        assert (Hb : fst (validateApiKey i net w) = Ok b) by now rewrite Ev.
        pose proof (validateApiKey_only_true _ _ _ Hb) as ->.
        apply validateApiKey_ok_iff in Hb as (r & Hr & Hs). eauto.
      * intros (k' & r & Ek & Ea & _). injection Ek as <-. congruence.
      * discriminate.
      * intros (k' & r & Ek & Ea & Hr & Hs). injection Ek as <-.
        assert (i = api) by congruence. subst i.
        assert (Hok : fst (validateApiKey api net w) = Ok true)
          by (apply validateApiKey_ok_iff; eauto).
        rewrite Ev in Hok. discriminate Hok.
    + cbn [fst]. split; [discriminate|].
      intros (k' & r & Ek & Ea & _). injection Ek as <-. congruence.
  - cbn. split; [discriminate|]. intros (k & r & Ek & _). discriminate Ek.
Qed.

(** X24. With no instance yet and a key that is absent, empty or made of white
    space only, the start of the process sends nothing upstream: an absent or
    empty key fails the environment check with an uncaught validation error,
    and a key of white space passes that check, fails the constructor, and
    the process exits with code 1. *)
Theorem initialize_without_key_sends_nothing `{JsRuntime} (key : option jsstring)
    (net : Network) (st : ModuleState) (w : World) :
  instance st = None ->
  (forall k, key = Some k -> forallb is_js_space k = true) ->
  snd (initialize key net st w) = w
  /\ fst (fst (initialize key net st w))
     = match key with
       | Some (_ :: _) => ProcessExit 1
       | _ => Uncaught (ZodError_ [[PKey (js "MISTRAL_API_KEY")]])
       end.
Proof.
  intros Hn Hb. unfold initialize, envSchema_parse, getMistralAPI. rewrite Hn.
  destruct key as [[|c k]|]; try (split; reflexivity).
  specialize (Hb (c :: k) eq_refl).
  destruct (new_MistralAPI_cases (next_oid st) (c :: k)) as [[_ E]|[Hf _]];
    [|congruence].
  rewrite E. split; reflexivity.
Qed.

Lemma initialize_without_key_sends_nothing_witness :
  snd (@initialize example_runtime (Some (js "   "))
         (replies_with reply_with_fenced_code)
         {| instance := None; next_oid := 0 |} {| now := 0; dispatched := [] |})
  = {| now := 0; dispatched := [] |}
  /\ fst (fst (@initialize example_runtime (Some (js "   "))
                 (replies_with reply_with_fenced_code)
                 {| instance := None; next_oid := 0 |} {| now := 0; dispatched := [] |}))
     = ProcessExit 1.
Proof.
  apply (@initialize_without_key_sends_nothing example_runtime (Some (js "   "))
           (replies_with reply_with_fenced_code)
           {| instance := None; next_oid := 0 |} {| now := 0; dispatched := [] |}).
  - reflexivity.
  - intros k E. injection E as <-. reflexivity.
Defined.

Lemma initialize_ready_iff_witness :
  exists api,
    fst (fst (@initialize example_runtime (Some (js " key "))
                (replies_with reply_with_fenced_code)
                {| instance := None; next_oid := 0 |} {| now := 0; dispatched := [] |}))
    = Ready api
    /\ apiKey api = js "key".
Proof.
  exists example_client. split; [|reflexivity].
  apply (@initialize_ready_iff example_runtime (Some (js " key "))
           (replies_with reply_with_fenced_code)
           {| instance := None; next_oid := 0 |} {| now := 0; dispatched := [] |}
           example_client eq_refl).
  exists (js " key "), {| status := 200; data := Some reply_with_fenced_code |}.
  repeat split.
  apply schema_accepts. eexists. vm_compute. reflexivity.
Defined.

(** ** What the validator reads of a reply *)

(** X25. The validator reads a reply through its six top-level keys only: two
    bodies that hold the same values under these keys validate alike, so
    fields the upstream adds, and the order of the fields, make no
    difference. *)
Theorem reply_validation_reads_six_keys (f g : list (jsstring * JSON)) :
  (forall k, In k reply_keys -> get_field k f = get_field k g) ->
  CompletionResponseSchema_parse (Some (JObj f))
  = CompletionResponseSchema_parse (Some (JObj g)).
Proof.
  intros Hk. unfold CompletionResponseSchema_parse, CompletionResponseSchema, z_object, z_key.
  rewrite !Hk by (unfold reply_keys; simpl; auto 10).
  reflexivity.
Qed.

Lemma reply_validation_reads_six_keys_witness :
  CompletionResponseSchema_parse (Some reply_with_extra_field)
  = CompletionResponseSchema_parse (Some reply_without_choices).
Proof.
  apply reply_validation_reads_six_keys.
  intros k [<-|[<-|[<-|[<-|[<-|[<-|[]]]]]]]; reflexivity.
Defined.

(** ** The extracted code *)

(** X26. The result of the extractor is stable: when at least one block was
    found it contains no fence at all, when none was found it is the text
    itself, and in both cases extracting again changes nothing. *)
Theorem extracted_code_is_stable (text : jsstring) :
  (matchAll text <> [] -> ~ has_fence (extractCodeBlocks text))
  /\ (matchAll text = [] -> extractCodeBlocks text = text)
  /\ extractCodeBlocks (extractCodeBlocks text) = extractCodeBlocks text.
Proof.
  split; [apply extraction_result_has_no_fence|].
  split; [|apply extraction_idempotent_everywhere].
  intros E. unfold extractCodeBlocks. now rewrite E.
Qed.

Lemma extracted_code_is_stable_witness :
  ~ has_fence (extractCodeBlocks two_blocks_text)
  /\ extractCodeBlocks (js "plain text") = js "plain text".
Proof.
  split.
  - apply (proj1 (extracted_code_is_stable two_blocks_text)).
    vm_compute. discriminate.
  - apply (proj1 (proj2 (extracted_code_is_stable (js "plain text")))).
    reflexivity.
Defined.

Lemma back_to_back_dispatch_gap_example :
  dispatch_times
    (snd (@fimCompletion example_runtime example_client
            (replies_with reply_with_fenced_code) (js "def f():") no_fim_options
            (snd (@chatCompletion example_runtime example_client
                    (replies_with reply_with_fenced_code) probe_messages
                    no_chat_options {| now := 7; dispatched := [] |}))))
  = [7; 47].
Proof. reflexivity. Qed.
